(** * runtime64_specific.cpp: the native support layer of the Skip runtime

    A shallow embedding of [src/runtime/runtime64_specific.cpp] and the
    properties of its exception relay, line input buffer, argument accessor
    and output routines.

    The C++ translation unit keeps its state in globals ([argc], [argv]),
    thread-local variables ([exn], [lineBuffer]), the C/C++ standard streams
    and the C heap.  The embedding threads one [state] record through every
    routine; a routine is a function [state -> outcome A] that returns
    normally, leaves by a C++ exception ([throw skip::SkipException]) or
    runs into undefined behaviour.

    Integers are [Z]; where the source converts to [uint32_t] the wrap is
    written out with [to_uint32], and a [uint32_t] parameter is taken to
    hold a value in [0, 2^32).  A routine that reads a thread-local variable
    takes the calling thread as its first argument.  The target is a 64-bit
    one ([size_t] is 64 bits wide), as the file's name says.

    [heap] holds the blocks that the code of this file obtains from
    [malloc].  The storage the C and C++ libraries manage for themselves
    (the characters of [lineBuffer], the buffers of the streams) is not
    part of the state. *)

From Stdlib Require Import ZArith List Lia.
From Stdlib Require Import Strings.Byte Strings.String.
From stdpp Require Import base option list gmap.

Local Open Scope Z_scope.

(** ** Machine data *)

Abbreviation byte := Byte.byte.

(** [uint32_t]: a value in [0, 2^32); every conversion to it wraps. *)
Definition uint32_max : Z := 4294967296.
Definition to_uint32 (z : Z) : Z := z mod uint32_max.

(** [void*] and the other opaque references; [NULL] is 0. *)
Definition ptr := Z.
Definition NULL : ptr := 0.

(** Threads are named by a number; thread 0 runs [main]. *)
Definition tid := nat.

Definition NUL : byte := x00.
Definition LF : byte := x0a.

Definition byte_val (b : byte) : Z := Z.of_N (Byte.to_N b).

(** The byte with the low eight bits of [z] (conversion to [unsigned char]). *)
Definition byte_of_Z (z : Z) : byte :=
  match Byte.of_N (Z.to_N (z mod 256)) with
  | Some b => b
  | None => NUL
  end.

(** Text of a literal, as bytes. *)
Definition bytes (s : string) : list byte := list_byte_of_string s.

(** A C string in memory: its content followed by the terminating zero. *)
Definition c_mem (content : list byte) : list byte := content ++ [NUL].

(** What a C-string reader ([strlen], [%s]) sees at a buffer: the bytes before
    the first zero byte. *)
Fixpoint c_str (mem : list byte) : list byte :=
  match mem with
  | [] => []
  | b :: rest => if Byte.eqb b NUL then [] else b :: c_str rest
  end.

Definition strlen (mem : list byte) : Z := Z.of_nat (length (c_str mem)).

(** ** Streams *)

(** What happens behind [std::cin] once [pending] is used up.

    [EndOfInput]: the reads come to an end, by end-of-file or by a read of
    the device that fails.  [std::cin] is synchronised with stdio and takes
    its bytes from [getc], which answers a failed read with [EOF] just as it
    answers end-of-file, so the library sees the two alike.

    [ExtractionThrows]: the library throws while it extracts (there is no
    memory to grow the string); [getline] catches the exception and sets
    [badbit]. *)
Inductive stream_end := EndOfInput | ExtractionThrows.

Record istream := mk_istream {
  pending : list byte;
  ending : stream_end;
  eofbit : bool;
  failbit : bool;
  badbit : bool
}.

(** [std::ios::good()] and [std::ios::fail()]. *)
Definition ios_good (s : istream) : bool :=
  negb (eofbit s || failbit s || badbit s).
Definition ios_fail (s : istream) : bool := failbit s || badbit s.

(** A [FILE*] opened for writing.  [written] is what the stream has taken so
    far; [room] is how many more bytes it will take before writes fail
    ([None]: no limit); [ferror] is the stream's error indicator. *)
Record FILE := mk_FILE {
  written : list byte;
  room : option nat;
  ferror : bool
}.

Inductive descr := Stdout | Stderr.

(** ** Process state *)

Record state := mk_state {
  argc : Z;                              (* static int argc = 0 *)
  argv : option (list (list byte));      (* static char** argv = NULL *)
  exn : gmap tid ptr;                    (* thread_local void* exn *)
  lineBuffer : gmap tid (list byte);     (* thread_local std::string lineBuffer *)
  cin : istream;
  stdout : FILE;
  stderr : FILE;
  heap : gmap nat (list byte);           (* live blocks of the file's own malloc calls *)
  quota : option Z                       (* bytes malloc can still hand out to them *)
}.

Definition set_args (c : Z) (v : option (list (list byte))) (st : state) : state :=
  mk_state c v (exn st) (lineBuffer st) (cin st) (stdout st) (stderr st)
           (heap st) (quota st).
Definition set_exn (m : gmap tid ptr) (st : state) : state :=
  mk_state (argc st) (argv st) m (lineBuffer st) (cin st) (stdout st) (stderr st)
           (heap st) (quota st).
Definition set_lineBuffer (m : gmap tid (list byte)) (st : state) : state :=
  mk_state (argc st) (argv st) (exn st) m (cin st) (stdout st) (stderr st)
           (heap st) (quota st).
Definition set_cin (s : istream) (st : state) : state :=
  mk_state (argc st) (argv st) (exn st) (lineBuffer st) s (stdout st) (stderr st)
           (heap st) (quota st).
Definition set_file (d : descr) (f : FILE) (st : state) : state :=
  match d with
  | Stdout => mk_state (argc st) (argv st) (exn st) (lineBuffer st) (cin st)
                       f (stderr st) (heap st) (quota st)
  | Stderr => mk_state (argc st) (argv st) (exn st) (lineBuffer st) (cin st)
                       (stdout st) f (heap st) (quota st)
  end.
Definition set_heap (h : gmap nat (list byte)) (q : option Z) (st : state) : state :=
  mk_state (argc st) (argv st) (exn st) (lineBuffer st) (cin st) (stdout st)
           (stderr st) h q.

Definition get_file (d : descr) (st : state) : FILE :=
  match d with Stdout => stdout st | Stderr => stderr st end.

(** Thread-local variables have static storage duration: each thread starts
    with a null [exn] and an empty [lineBuffer]. *)
Definition exn_of (t : tid) (st : state) : ptr := default NULL (exn st !! t).
Definition lineBuffer_of (t : tid) (st : state) : list byte :=
  default [] (lineBuffer st !! t).

(** The state the process image starts with, given what the host attached to
    the standard streams and how much memory it grants. *)
Definition initial_state (stdin : istream) (out err : FILE) (q : option Z) : state :=
  mk_state 0 None ∅ ∅ stdin out err ∅ q.

(** ** Routines: normal return, C++ exception, or undefined behaviour *)

Inductive outcome (A : Type) :=
| Ret (a : A) (st : state)      (* the call returns [a] *)
| Throw (e : ptr) (st : state)  (* [skip::SkipException(e)] propagates *)
| Fault.                        (* undefined behaviour: the process is lost *)
Arguments Ret {A} a st.
Arguments Throw {A} e st.
Arguments Fault {A}.

Definition M (A : Type) := state -> outcome A.

Definition ret {A} (a : A) : M A := fun st => Ret a st.
Definition bind {A B} (m : M A) (k : A -> M B) : M B :=
  fun st =>
    match m st with
    | Ret a st' => k a st'
    | Throw e st' => Throw e st'
    | Fault => Fault
    end.
Definition get_state : M state := fun st => Ret st st.
Definition modify (f : state -> state) : M unit := fun st => Ret tt (f st).
Definition undefined {A} : M A := fun _ => Fault.

Notation "x <- m ;; k" := (bind m (fun x => k))
  (at level 100, m at next level, right associativity).
Notation "m ;;; k" := (bind m (fun _ => k))
  (at level 100, right associativity).

(** ** The C and C++ library, as far as the file uses it *)

(** *** The heap: [malloc], [memcpy], a store through a pointer, [free] *)

(** A pointer returned by [malloc]: [None] is the null pointer, [Some b] the
    start of block [b]. *)
Definition block_ptr := option nat.

(** Fresh storage is indeterminate; a nonzero filler stands for it, so that a
    reader running past what was written is not stopped by luck. *)
Definition indeterminate : byte := xaa.

Definition malloc (n : Z) : M block_ptr := fun st =>
  let b := fresh (dom (heap st)) in
  let blk := replicate (Z.to_nat n) indeterminate in
  match quota st with
  | None => Ret (Some b) (set_heap (<[b := blk]> (heap st)) None st)
  | Some q =>
      if q <? n then Ret None st
      else Ret (Some b) (set_heap (<[b := blk]> (heap st)) (Some (q - n)) st)
  end.

Definition free (p : block_ptr) : M unit := fun st =>
  match p with
  | None => Ret tt st
  | Some b =>
      match heap st !! b with
      | None => Fault
      | Some blk =>
          Ret tt (set_heap (delete b (heap st))
                           (option_map (fun q => q + Z.of_nat (length blk)) (quota st))
                           st)
      end
  end.

(** [memcpy(dst, src, n)]: the first [n] bytes at [src] go to the start of
    the block; writing through null, past the block or reading past the
    source is undefined. *)
Definition memcpy (dst : block_ptr) (src : list byte) (n : Z) : M unit := fun st =>
  match dst with
  | None => Fault
  | Some b =>
      match heap st !! b with
      | None => Fault
      | Some blk =>
          if (n <=? Z.of_nat (length blk)) && (n <=? Z.of_nat (length src)) then
            Ret tt (set_heap (<[b := take (Z.to_nat n) src ++ drop (Z.to_nat n) blk]> (heap st))
                             (quota st) st)
          else Fault
      end
  end.

(** [p[i] = x] *)
Definition store (p : block_ptr) (i : Z) (x : byte) : M unit := fun st =>
  match p with
  | None => Fault
  | Some b =>
      match heap st !! b with
      | None => Fault
      | Some blk =>
          if (0 <=? i) && (i <? Z.of_nat (length blk)) then
            Ret tt (set_heap (<[b := <[Z.to_nat i := x]> blk]> (heap st)) (quota st) st)
          else Fault
      end
  end.

(** *** Output streams *)

(** The stream takes as much of [bs] as it has room for; a short write sets
    the error indicator.  This is the one place a write can fail. *)
Definition put (bs : list byte) (f : FILE) : FILE :=
  match room f with
  | None => mk_FILE (written f ++ bs) None (ferror f)
  | Some r =>
      mk_FILE (written f ++ take r bs)
              (Some (r - length (take r bs))%nat)
              (ferror f || (r <? length bs)%nat)
  end.

(** The write succeeded: every byte was taken. *)
Definition accepts (f : FILE) (n : nat) : Prop :=
  match room f with None => True | Some r => (n <= r)%nat end.

Definition fputs (d : descr) (bs : list byte) : M unit :=
  modify (fun st => set_file d (put bs (get_file d st)) st).

Definition has_NUL (mem : list byte) : bool := existsb (fun b => Byte.eqb b NUL) mem.

(** [fprintf(descr, "%s", buffer)]: writes the C string at [buffer], that is
    the bytes before the first zero byte; its result is not looked at. *)
Definition fprintf_s (d : descr) (buffer : block_ptr) : M unit :=
  st <- get_state ;;
  match buffer with
  | None => undefined
  | Some b =>
      match heap st !! b with
      | None => undefined
      | Some mem => if has_NUL mem then fputs d (c_str mem) else undefined
      end
  end.

(** [printf("%c", x)]: the argument is converted to [unsigned char] and that
    one byte is written. *)
Definition printf_c (x : Z) : M unit := fputs Stdout [byte_of_Z x].

(** *** [std::getline(std::cin, str)] *)

Inductive stop := AtDelimiter | AtEndOfInput | AtException.

(** The extraction loop: characters are taken up to the next line feed, which
    is taken too but not stored, or until the input sequence ends.  Returns
    the characters stored, what is left of the input, and why it stopped.
    (The third stop of the standard, [max_size()] characters stored, is out of
    reach: on a 64-bit target it is 2^62 or more.) *)
Fixpoint extract_line (input : list byte) (e : stream_end)
  : list byte * list byte * stop :=
  match input with
  | [] => ([], [], match e with EndOfInput => AtEndOfInput | ExtractionThrows => AtException end)
  | c :: rest =>
      if Byte.eqb c LF then ([], rest, AtDelimiter)
      else let '(line, rest', s) := extract_line rest e in (c :: line, rest', s)
  end.

(** The sentry fails, and sets [failbit], unless the stream is good; then
    [str] is left alone.  Otherwise [str] is erased and filled by the loop.
    End of input (end-of-file or a failed read) sets [eofbit], and [failbit]
    too when nothing at all was extracted: a line it cuts short after the
    first byte leaves the stream without [failbit].  An exception caught
    during extraction sets [badbit]. *)
Definition is_empty (l : list byte) : bool :=
  match l with [] => true | _ => false end.

Definition getline (s : istream) (str : list byte) : istream * list byte :=
  if ios_good s then
    let '(line, rest, why) := extract_line (pending s) (ending s) in
    match why with
    | AtDelimiter => (mk_istream rest (ending s) false false false, line)
    | AtEndOfInput =>
        (mk_istream [] (ending s) true (is_empty line) false, line)
    | AtException =>
        (mk_istream [] (ending s) false (is_empty line) true, line)
    end
  else
    (mk_istream (pending s) (ending s) (eofbit s) true (badbit s), str).

(** ** The compiled layer's side of the interface *)

(** A runtime string, seen through its accessors: its bytes. *)
Definition skstring := list byte.

(** Modelled from the spec: [SKIP_String_byteSize] is declared in the file but
    defined by the compiled layer; it is the runtime string's length query
    and returns a [uint32_t]. *)
Definition SKIP_String_byteSize (s : skstring) : Z := to_uint32 (Z.of_nat (length s)).

(** Modelled from the spec: [sk_string_create] is declared in the file but
    defined by the compiled layer; it produces a new runtime string that
    copies [buffer[0..size)]. *)
Definition sk_string_create (buffer : list byte) (size : Z) : skstring :=
  take (Z.to_nat size) buffer.

(** ** The routines of runtime64_specific.cpp *)

Section Runtime.

(** The value of the compiled layer's end-of-file exception. *)
Variable EndOfFile : ptr.

(** Whether plain [char] is a signed type on the target (it is on x86-64,
    it is not on AArch64 Linux). *)
Variable char_is_signed : bool.

(** The value of a [char] object holding byte [b]. *)
Definition char_val (b : byte) : Z :=
  if char_is_signed && (128 <=? byte_val b) then byte_val b - 256 else byte_val b.

Definition SKIP_print_char (x : Z) : M unit :=
  printf_c x.

Definition SKIP_throw (exc : ptr) : M unit :=
  fun st => Throw exc st.

(** Modelled from the spec: [SKIP_throw_EndOfFile] is declared in the file but
    defined by the compiled layer; it raises the end-of-stream signal value
    through the relay's raise. *)
Definition SKIP_throw_EndOfFile : M unit :=
  SKIP_throw EndOfFile.

Definition SKIP_read_line_fill (t : tid) : M Z :=
  modify (fun st =>
            let '(s, buf) := getline (cin st) (lineBuffer_of t st) in
            set_cin s (set_lineBuffer (<[t := buf]> (lineBuffer st)) st)) ;;;
  st <- get_state ;;
  (if ios_fail (cin st) then SKIP_throw_EndOfFile else ret tt) ;;;
  st <- get_state ;;
  ret (to_uint32 (Z.of_nat (length (lineBuffer_of t st)))).

(** [lineBuffer[i]]: a character of the string for [i < size()], the
    terminating null character for [i == size()], undefined beyond. *)
Definition SKIP_read_line_get (t : tid) (i : Z) : M Z :=
  st <- get_state ;;
  let buf := lineBuffer_of t st in
  match buf !! Z.to_nat i with
  | Some c => ret (to_uint32 (char_val c))
  | None => if i =? Z.of_nat (length buf) then ret 0 else undefined
  end.

Definition SKIP_getExn (t : tid) : M ptr :=
  st <- get_state ;;
  ret (exn_of t st).

Definition SKIP_saveExn (t : tid) (e : ptr) : M unit :=
  modify (fun st => set_exn (<[t := e]> (exn st)) st).

Definition free_size (p : block_ptr) (size : Z) : M unit :=
  free p.

Definition SKIP_getArgc : M Z :=
  st <- get_state ;;
  ret (to_uint32 (argc st - 1)).

(** [argv[n]] is a C string for [n < argc]; [argv[argc]] is null and what
    lies beyond is not the program's, so [strlen] of either is undefined. *)
Definition SKIP_getArgN (n : Z) : M skstring :=
  let n := to_uint32 (n + 1) in
  st <- get_state ;;
  match argv st with
  | None => undefined
  | Some v =>
      match v !! Z.to_nat n with
      | None => undefined
      | Some a => ret (sk_string_create (c_mem a) (to_uint32 (strlen (c_mem a))))
      end
  end.

Definition print (d : descr) (str : skstring) : M unit :=
  let size := SKIP_String_byteSize str in
  buffer <- malloc (size + 1) ;;
  memcpy buffer str size ;;;
  store buffer size NUL ;;;
  fprintf_s d buffer ;;;
  free buffer.

Definition SKIP_print_raw (str : skstring) : M unit :=
  print Stdout str.

Definition print_string (str : skstring) : M unit :=
  print Stdout str ;;;
  fputs Stdout [LF].

Definition SKIP_print_error (str : skstring) : M unit :=
  print Stderr str ;;;
  fputs Stderr [LF].

(** ** Compiled code, as this file meets it *)

(** The routines compiled code can call, with their arguments. *)
Inductive call :=
| Call_print_char (x : Z)
| Call_throw (exc : ptr)
| Call_read_line_fill
| Call_read_line_get (i : Z)
| Call_getExn
| Call_saveExn (e : ptr)
| Call_free_size (p : block_ptr) (size : Z)
| Call_getArgc
| Call_getArgN (n : Z)
| Call_print_raw (str : skstring)
| Call_print_string (str : skstring)
| Call_print_error (str : skstring).

Inductive value :=
| VUnit
| VInt (z : Z)
| VPtr (p : ptr)
| VString (s : skstring).

Definition lift {A} (f : A -> value) (m : M A) : M value :=
  a <- m ;; ret (f a).

(** Thread [t] calls routine [c]. *)
Definition perform (t : tid) (c : call) : M value :=
  match c with
  | Call_print_char x => lift (fun _ => VUnit) (SKIP_print_char x)
  | Call_throw exc => lift (fun _ => VUnit) (SKIP_throw exc)
  | Call_read_line_fill => lift VInt (SKIP_read_line_fill t)
  | Call_read_line_get i => lift VInt (SKIP_read_line_get t i)
  | Call_getExn => lift VPtr (SKIP_getExn t)
  | Call_saveExn e => lift (fun _ => VUnit) (SKIP_saveExn t e)
  | Call_free_size p size => lift (fun _ => VUnit) (free_size p size)
  | Call_getArgc => lift VInt SKIP_getArgc
  | Call_getArgN n => lift VString (SKIP_getArgN n)
  | Call_print_raw str => lift (fun _ => VUnit) (SKIP_print_raw str)
  | Call_print_string str => lift (fun _ => VUnit) (print_string str)
  | Call_print_error str => lift (fun _ => VUnit) (SKIP_print_error str)
  end.

(** A sequence of calls, each by some thread; a call that returns or throws
    hands control back to compiled code, undefined behaviour ends the
    process. *)
Fixpoint perform_all (cs : list (tid * call)) (st : state) : option state :=
  match cs with
  | [] => Some st
  | (t, c) :: cs' =>
      match perform t c st with
      | Ret _ st' => perform_all cs' st'
      | Throw _ st' => perform_all cs' st'
      | Fault => None
      end
  end.

(** What a call hands back to compiled code. *)
Inductive reply :=
| Returned (v : value)
| Raised (e : ptr).

(** Modelled from the spec: [SKIP_initializeSkip] and [skip_main] are declared
    in the file but defined by the compiled layer.  Such code takes no
    argument and returns nothing; all it can do to this file's state is call
    its routines, on any thread, choosing each next call from what the
    earlier ones handed back; it may catch what they throw or let an
    exception escape. *)
Inductive compiled :=
| Return
| Escape (e : ptr)
| Invoke (t : tid) (c : call) (k : reply -> compiled).

Inductive result :=
| Returns (st : state)
| Escapes (e : ptr) (st : state)
| Dies.

(** Runs compiled code; the trace lists every call with the state it was
    made in. *)
Fixpoint run (p : compiled) (st : state) : list (tid * call * state) * result :=
  match p with
  | Return => ([], Returns st)
  | Escape e => ([], Escapes e st)
  | Invoke t c k =>
      match perform t c st with
      | Ret v st' =>
          let '(tr, r) := run (k (Returned v)) st' in ((t, c, st) :: tr, r)
      | Throw e st' =>
          let '(tr, r) := run (k (Raised e)) st' in ((t, c, st) :: tr, r)
      | Fault => ([(t, c, st)], Dies)
      end
  end.

(** [main]: the two assignments, then the two calls.  An exception that
    escapes the first call ends the process before the second is made. *)
Definition main (pargc : Z) (pargv : list (list byte))
    (SKIP_initializeSkip skip_main : compiled) (st : state)
  : list (tid * call * state) * result :=
  let st := set_args pargc (argv st) st in
  let st := set_args (argc st) (Some pargv) st in
  let '(tr1, r1) := run SKIP_initializeSkip st in
  match r1 with
  | Returns st1 =>
      let '(tr2, r2) := run skip_main st1 in (tr1 ++ tr2, r2)
  | _ => (tr1, r1)
  end.

(** The host starts the process with [args]: [main] receives their number
    and the vector. *)
Definition start (args : list (list byte)) :=
  main (Z.of_nat (length args)) args.

End Runtime.

(** * Vocabulary of the properties *)

(** [frame R m]: wherever [m] hands control back, by return or by exception,
    the states before and after are related by [R]. *)
Definition frame {A} (R : state -> state -> Prop) (m : M A) : Prop :=
  forall st,
    match m st with
    | Ret _ st' => R st st'
    | Throw _ st' => R st st'
    | Fault => True
    end.

(** A relation that holds across every update of the streams, the line
    buffers and the heap: what [R] speaks of is none of these. *)
Record untouched_by_io (R : state -> state -> Prop) : Prop := {
  io_refl : forall st, R st st;
  io_trans : forall a b c, R a b -> R b c -> R a c;
  io_heap : forall st h q, R st (set_heap h q st);
  io_file : forall st d f, R st (set_file d f st);
  io_cin : forall st s, R st (set_cin s st);
  io_lineBuffer : forall st m, R st (set_lineBuffer m st)
}.

(** The arguments captured by [main]. *)
Definition same_args (s s' : state) : Prop :=
  argc s' = argc s /\ argv s' = argv s.

(** The exception slots of all threads. *)
Definition same_exn (s s' : state) : Prop := exn s' = exn s.

(** The call is a [SKIP_saveExn] made by thread [T]. *)
Definition saves_on (T : tid) (tc : tid * call) : Prop :=
  exists e, tc = (T, Call_saveExn e).

(** The arguments are captured in [s]: [argc] and [argv] hold what [main]
    was given. *)
Definition captured (pargc : Z) (pargv : list (list byte)) (s : state) : Prop :=
  argc s = pargc /\ argv s = Some pargv.

Definition captured_at_end (pargc : Z) (pargv : list (list byte)) (r : result) : Prop :=
  match r with
  | Returns s => captured pargc pargv s
  | Escapes _ s => captured pargc pargv s
  | Dies => True
  end.

(** Nothing is left to read from the stream. *)
Definition exhausted (s : istream) : Prop := pending s = [].

(** The stream already carries an error or end-of-file bit from an earlier
    call, or the library throws while it extracts, before it has met a line
    terminator. *)
Definition faulty (s : istream) : Prop :=
  ios_good s = false \/ (ending s = ExtractionThrows /\ LF ∉ pending s).

Definition stop_of (e : stream_end) : stop :=
  match e with EndOfInput => AtEndOfInput | ExtractionThrows => AtException end.

(** The input ahead starts with [line] and its terminator, [rest] follows. *)
Definition terminated_line (s : istream) (line rest : list byte) : Prop :=
  pending s = line ++ LF :: rest.

(** The input ahead is [line], not empty, and then end-of-file: a last line
    that lacks its terminator. *)
Definition unterminated_last_line (s : istream) (line rest : list byte) : Prop :=
  pending s = line /\ rest = [] /\ line <> [] /\ ending s = EndOfInput.

(** [line] is the next line of the stream, without terminator, and [rest]
    is what follows it. *)
Definition next_line (s : istream) (line rest : list byte) : Prop :=
  (LF ∉ line) /\ (terminated_line s line rest \/ unterminated_last_line s line rest).

(** What the host hands to [main]: a vector whose length fits the [int]
    parameter, of C strings (no zero byte before the terminator), each kept by
    the host's limit on argument size far below 2^32 bytes. *)
Definition host_args (args : list (list byte)) : Prop :=
  Z.of_nat (length args) < 2 ^ 31 /\
  Forall (fun a => (NUL ∉ a) /\ Z.of_nat (length a) < 2 ^ 32) args.

(** [malloc] has the memory for [n] more bytes. *)
Definition can_malloc (n : Z) (st : state) : Prop :=
  match quota st with None => True | Some q => n <= q end.

(** The heap is as it was: the same live blocks, the same memory left. *)
Definition heap_restored (st st' : state) : Prop :=
  heap st' = heap st /\ quota st' = quota st.

(** ** Scenarios *)

(** A terminal that takes everything written to it. *)
Definition terminal : FILE := mk_FILE [] None false.

(** Standard input holding [input], followed by end-of-file. *)
Definition stdin_of (input : list byte) : istream :=
  mk_istream input EndOfInput false false false.

(** A freshly loaded process with [input] on standard input. *)
Definition boot (input : list byte) : state :=
  initial_state (stdin_of input) terminal terminal None.

(** A stream that takes nothing more: every write to it fails. *)
Definition full : FILE := mk_FILE [] (Some 0%nat) false.

(** A process whose standard output takes nothing more and which has 16 bytes
    of heap left. *)
Definition cramped : state :=
  initial_state (stdin_of []) full terminal (Some 16).

(** The arguments "prog", "--flag", "value". *)
Definition prog_flag_value : list (list byte) :=
  [bytes "prog"; bytes "--flag"; bytes "value"].

(** The process once [main] has stored these arguments. *)
Definition started_prog_flag_value : state :=
  set_args 3 (Some prog_flag_value) (boot []).

(** Calls of two threads: thread 0 reads its exception slot, thread 1 saves
    9, thread 0 prints a character, reads a line and reads its slot again. *)
Definition interleaved_calls : list (tid * call) :=
  [(0%nat, Call_getExn); (1%nat, Call_saveExn 9); (0%nat, Call_print_char 65);
   (0%nat, Call_read_line_fill); (0%nat, Call_getExn)].

(** Compiled code that asks for the first argument and prints it as a
    line. *)
Definition print_first_argument : compiled :=
  Invoke 0%nat (Call_getArgN 0)
    (fun r =>
       match r with
       | Returned (VString s) => Invoke 0%nat (Call_print_string s) (fun _ => Return)
       | _ => Return
       end).

(** ** Vocabulary of the further properties *)

Definition CR : byte := x0d.

(** The call is a [SKIP_read_line_fill] made by thread [T]. *)
Definition reads_on (T : tid) (tc : tid * call) : Prop :=
  tc = (T, Call_read_line_fill).

(** The call is a [free_size]. *)
Definition frees (tc : tid * call) : Prop :=
  exists p size, tc.2 = Call_free_size p size.

(** Every byte of the line is below 128. *)
Definition seven_bit (line : list byte) : Prop :=
  Forall (fun c => byte_val c < 128) line.

(** The text made of [lines], each followed by its line feed. *)
Definition text_of (lines : list (list byte)) : list byte :=
  concat (map (fun l => l ++ [LF]) lines).

(** A reading loop of compiled code: up to [n] calls of
    [SKIP_read_line_fill] on thread [t], keeping of each call that returns
    the count and a copy of the buffer; it stops at the first call that
    does not return.  It hands back what it kept and the state it stopped
    in (none if the process is lost). *)
Fixpoint read_lines (eof : ptr) (t : tid) (n : nat) (st : state)
  : list (Z * list byte) * option state :=
  match n with
  | O => ([], Some st)
  | S n' =>
      match SKIP_read_line_fill eof t st with
      | Ret count st' =>
          let '(kept, final) := read_lines eof t n' st' in
          ((count, lineBuffer_of t st') :: kept, final)
      | Throw _ st' => ([], Some st')
      | Fault => ([], None)
      end
  end.

(** Both output streams hold what they held, possibly with more after it. *)
Definition output_extended (s s' : state) : Prop :=
  written (stdout s) `prefix_of` written (stdout s') /\
  written (stderr s) `prefix_of` written (stderr s').

(** The blocks the file's code has got from [malloc] and not freed are the
    same. *)
Definition same_blocks (s s' : state) : Prop := heap s' = heap s.

(** Thread [T]'s line buffer is as it was. *)
Definition same_line (T : tid) (s s' : state) : Prop :=
  lineBuffer_of T s' = lineBuffer_of T s.

(** A stream that has failed is still failed. *)
Definition still_failed (s s' : state) : Prop :=
  ios_fail (cin s) = true -> ios_fail (cin s') = true.

(** What a relation must allow for the output routines to keep it: a write
    to either stream. *)
Record kept_by_output (R : state -> state -> Prop) : Prop := {
  ko_refl : forall st, R st st;
  ko_trans : forall a b c, R a b -> R b c -> R a c;
  ko_put : forall st d bs, R st (set_file d (put bs (get_file d st)) st)
}.

(** A process with three bytes of heap left. *)
Definition starved : state :=
  initial_state (stdin_of []) terminal terminal (Some 3).

(** A process started with no argument at all, not even the program's
    path. *)
Definition started_without_arguments : state :=
  set_args 0 (Some []) (boot []).

(** Calls of two threads: thread 1 saves 9 and prints, thread 0 reads its
    exception slot. *)
Definition other_thread_saves : list (tid * call) :=
  [(1%nat, Call_saveExn 9); (1%nat, Call_print_char 65); (0%nat, Call_getExn)].

(** Calls that leave thread 0's line alone: thread 1 reads a line, thread 0
    prints and saves. *)
Definition other_thread_reads : list (tid * call) :=
  [(1%nat, Call_read_line_fill); (0%nat, Call_print_string (bytes "ok"));
   (0%nat, Call_saveExn 5)].

(** Calls that print on both streams and read. *)
Definition mixed_calls : list (tid * call) :=
  [(0%nat, Call_print_raw (bytes "ab")); (0%nat, Call_print_error (bytes "oops"));
   (1%nat, Call_read_line_fill); (0%nat, Call_print_char 33)].

(** Compiled code that asks for the count and then for the second
    argument. *)
Definition ask_count_and_second : compiled :=
  Invoke 0%nat Call_getArgc
    (fun _ => Invoke 0%nat (Call_getArgN 1) (fun _ => Return)).

(** Three lines, the second one empty. *)
Definition three_lines : list (list byte) := [bytes "ab"; []; bytes "c"].

(** A few calls, none of them [free_size]. *)
Definition calls_without_free : list (tid * call) :=
  [(0%nat, Call_print_string (bytes "hello")); (1%nat, Call_read_line_fill);
   (0%nat, Call_print_error (bytes "no")); (1%nat, Call_saveExn 3)].

(** A process that has already written "ab" to standard output. *)
Definition wrote_ab : state :=
  set_file Stdout (put (bytes "ab") (stdout (boot []))) (boot []).

(** * Properties *)

(** ** What a routine leaves alone *)

Section Frame.

Variable R : state -> state -> Prop.
Hypothesis HR : untouched_by_io R.

Lemma frame_ret {A} (a : A) : frame R (ret a).
Proof. intros st. apply (io_refl R HR). Qed.

Lemma frame_get_state : frame R get_state.
Proof. intros st. apply (io_refl R HR). Qed.

Lemma frame_undefined {A} : frame R (@undefined A).
Proof. intros st. exact I. Qed.

Lemma frame_modify (f : state -> state) :
  (forall st, R st (f st)) -> frame R (modify f).
Proof. intros Hf st. apply Hf. Qed.

Lemma frame_bind {A B} (m : M A) (k : A -> M B) :
  frame R m -> (forall a, frame R (k a)) -> frame R (bind m k).
Proof.
  intros Hm Hk st. unfold bind. specialize (Hm st).
  destruct (m st) as [a st1 | e st1 |]; [| exact Hm | exact I].
  specialize (Hk a st1).
  destruct (k a st1) as [b st2 | e st2 |]; [| | exact I];
    eapply (io_trans R HR); eauto.
Qed.

Lemma frame_if {A} (b : bool) (m1 m2 : M A) :
  frame R m1 -> frame R m2 -> frame R (if b then m1 else m2).
Proof. destruct b; auto. Qed.

End Frame.

Lemma same_args_io : untouched_by_io same_args.
Proof.
  split; unfold same_args; try (intros; split; reflexivity).
  - intros a b c [-> ->] [-> ->]. split; reflexivity.
  - intros st [] f; split; reflexivity.
Qed.

Lemma same_exn_io : untouched_by_io same_exn.
Proof.
  split; unfold same_exn; try reflexivity.
  - congruence.
  - intros st [] f; reflexivity.
Qed.

Section LibraryFrames.

Variable R : state -> state -> Prop.
Hypothesis HR : untouched_by_io R.

Ltac io_leaf :=
  first [ exact I | apply (io_refl R HR) | apply (io_heap R HR)
        | apply (io_file R HR) ].

Lemma frame_malloc n : frame R (malloc n).
Proof.
  intros st. unfold malloc.
  destruct (quota st) as [q|]; [destruct (q <? n)|]; io_leaf.
Qed.

Lemma frame_free p : frame R (free p).
Proof.
  intros st. unfold free.
  destruct p as [b|]; [destruct (heap st !! b)|]; io_leaf.
Qed.

Lemma frame_memcpy dst src n : frame R (memcpy dst src n).
Proof.
  intros st. unfold memcpy.
  destruct dst as [b|]; [destruct (heap st !! b) as [blk|]|]; try io_leaf.
  destruct (_ && _); io_leaf.
Qed.

Lemma frame_store p i x : frame R (store p i x).
Proof.
  intros st. unfold store.
  destruct p as [b|]; [destruct (heap st !! b) as [blk|]|]; try io_leaf.
  destruct (_ && _); io_leaf.
Qed.

Lemma frame_fputs d bs : frame R (fputs d bs).
Proof. intros st. apply (io_file R HR). Qed.

Lemma frame_fprintf_s d buffer : frame R (fprintf_s d buffer).
Proof.
  unfold fprintf_s.
  apply frame_bind; [exact HR | apply frame_get_state, HR |].
  intros st. destruct buffer as [b|]; [| apply frame_undefined].
  destruct (heap st !! b) as [mem|]; [| apply frame_undefined].
  destruct (has_NUL mem); [apply frame_fputs | apply frame_undefined].
Qed.

(** Chains the lemmas above along the binds of a routine. *)
Ltac frame_io :=
  repeat first
    [ apply frame_ret, HR
    | apply frame_get_state, HR
    | apply frame_undefined
    | apply frame_malloc
    | apply frame_free
    | apply frame_memcpy
    | apply frame_store
    | apply frame_fputs
    | apply frame_fprintf_s
    | apply frame_bind; [exact HR | | intros ?] ].

Lemma frame_print d str : frame R (print d str).
Proof. unfold print. frame_io. Qed.

Lemma frame_SKIP_read_line_fill eof t : frame R (SKIP_read_line_fill eof t).
Proof.
  unfold SKIP_read_line_fill. frame_io.
  - apply frame_modify. intros st.
    destruct (getline (cin st) (lineBuffer_of t st)) as [s buf].
    eapply (io_trans R HR); [apply (io_lineBuffer R HR) | apply (io_cin R HR)].
  - apply frame_if; [| apply frame_ret, HR].
    intros st. apply (io_refl R HR).
Qed.

Lemma frame_SKIP_read_line_get sgn t i : frame R (SKIP_read_line_get sgn t i).
Proof.
  unfold SKIP_read_line_get. frame_io.
  destruct (_ !! _); [| destruct (_ =? _)]; frame_io.
Qed.

Lemma frame_SKIP_getArgN n : frame R (SKIP_getArgN n).
Proof.
  unfold SKIP_getArgN. frame_io.
  destruct (argv _) as [v|]; [destruct (_ !! _)|]; frame_io.
Qed.

Lemma frame_lift {A} (f : A -> value) (m : M A) : frame R m -> frame R (lift f m).
Proof.
  intros Hm. unfold lift.
  apply frame_bind; [exact HR | exact Hm | intros a; apply frame_ret, HR].
Qed.

(** Every routine but [SKIP_saveExn] only works on the streams, the line
    buffers and the heap. *)
Lemma frame_perform_io eof sgn t c :
  (forall e, c <> Call_saveExn e) -> frame R (perform eof sgn t c).
Proof.
  intros Hc.
  destruct c as [x | exc | | i | | e | p size | | n | str | str | str];
    simpl; apply frame_lift.
  - apply frame_fputs.
  - intros st. apply (io_refl R HR).
  - apply frame_SKIP_read_line_fill.
  - apply frame_SKIP_read_line_get.
  - unfold SKIP_getExn. frame_io.
  - exfalso. eapply Hc. reflexivity.
  - apply frame_free.
  - unfold SKIP_getArgc. frame_io.
  - apply frame_SKIP_getArgN.
  - apply frame_print.
  - unfold print_string. frame_io.
  - unfold SKIP_print_error. frame_io.
Qed.

End LibraryFrames.

(** ** Exception relay *)

Lemma frame_perform_args eof sgn t c : frame same_args (perform eof sgn t c).
Proof.
  destruct c as [x | exc | | i | | e | p size | | n | str | str | str];
    try (apply frame_perform_io; [exact same_args_io | discriminate]).
  intros st. split; reflexivity.
Qed.

Lemma SKIP_saveExn_spec t e st :
  SKIP_saveExn t e st = Ret tt (set_exn (<[t := e]> (exn st)) st).
Proof. reflexivity. Qed.

Lemma SKIP_getExn_spec t st : SKIP_getExn t st = Ret (exn_of t st) st.
Proof. reflexivity. Qed.

Lemma frame_weaken {A} (R R' : state -> state -> Prop) (m : M A) :
  (forall s s', R s s' -> R' s s') -> frame R m -> frame R' m.
Proof.
  intros HRR' Hm st. specialize (Hm st).
  destruct (m st); auto.
Qed.

(** A call that is not a save on [T] leaves [T]'s slot as it is. *)
Lemma perform_keeps_slot eof sgn T t c :
  ~ saves_on T (t, c) ->
  frame (fun s s' => exn_of T s' = exn_of T s) (perform eof sgn t c).
Proof.
  intros Hns.
  assert (Hio : (forall e, c <> Call_saveExn e) ->
                frame (fun s s' => exn_of T s' = exn_of T s) (perform eof sgn t c)).
  { intros Hc. apply (frame_weaken same_exn).
    - intros s s' H. unfold exn_of. rewrite H. reflexivity.
    - apply frame_perform_io; [exact same_exn_io | exact Hc]. }
  destruct c as [x | exc | | i | | e | p size | | n | str | str | str];
    try (apply Hio; discriminate).
  intros st. simpl. unfold exn_of. simpl.
  rewrite lookup_insert_ne; [reflexivity |].
  intros ->. apply Hns. exists e. reflexivity.
Qed.

Lemma perform_all_keeps_slot eof sgn T cs :
  Forall (fun tc => ~ saves_on T tc) cs ->
  forall st st', perform_all eof sgn cs st = Some st' -> exn_of T st' = exn_of T st.
Proof.
  induction 1 as [| [t c] cs Hc _ IH]; intros st st' Hrun; simpl in Hrun.
  - congruence.
  - pose proof (perform_keeps_slot eof sgn T t c Hc st) as Hstep.
    cbv beta in Hstep.
    destruct (perform eof sgn t c st) as [v st1 | e st1 |]; [| | discriminate];
      rewrite (IH _ _ Hrun); exact Hstep.
Qed.

(** C1. After [SKIP_saveExn v] on thread [T], whatever calls follow, on [T] or
    on other threads, as long as none of them is a [SKIP_saveExn] on [T], a
    [SKIP_getExn] on [T] returns [v]; and it returns in the very state it was
    called in, so the value is still there for the next [SKIP_getExn]. *)
Theorem getExn_after_saveExn eof sgn (T : tid) (v : ptr) (cs : list (tid * call))
    (st : state) :
  Forall (fun tc => ~ saves_on T tc) cs ->
  exists st1,
    SKIP_saveExn T v st = Ret tt st1 /\
    forall st2,
      perform_all eof sgn cs st1 = Some st2 ->
      SKIP_getExn T st2 = Ret v st2.
Proof.
  intros Hcs. eexists. split; [apply SKIP_saveExn_spec |].
  intros st2 Hrun. rewrite SKIP_getExn_spec. f_equal.
  rewrite (perform_all_keeps_slot eof sgn T cs Hcs _ _ Hrun).
  unfold exn_of. simpl. rewrite lookup_insert_eq. reflexivity.
Qed.

(** Thread 0 saves 42 in a fresh process with empty input; then come the
    interleaved calls, none of them a save on thread 0 (the line read
    raises): the process is still running, and one more [SKIP_getExn] on
    thread 0 returns 42. *)
Lemma getExn_after_saveExn_interleaved :
  Forall (fun tc => ~ saves_on 0%nat tc) interleaved_calls /\
  exists st1 st2,
    SKIP_saveExn 0%nat 42 (boot []) = Ret tt st1 /\
    perform_all 7 true interleaved_calls st1 = Some st2 /\
    SKIP_getExn 0%nat st2 = Ret 42 st2.
Proof.
  assert (Hcs : Forall (fun tc => ~ saves_on 0%nat tc) interleaved_calls).
  { repeat (constructor; [intros [e He]; discriminate He |]). constructor. }
  split; [exact Hcs |].
  destruct (getExn_after_saveExn 7 true 0%nat 42 interleaved_calls (boot []) Hcs)
    as (st1 & Hsave & Hget).
  assert (Hrun : exists st2, perform_all 7 true interleaved_calls st1 = Some st2).
  { rewrite SKIP_saveExn_spec in Hsave. injection Hsave as <-.
    eexists. reflexivity. }
  destruct Hrun as [st2 Hrun].
  exists st1, st2. split; [exact Hsave |]. split; [exact Hrun |].
  apply Hget, Hrun.
Defined.

(** A thread that never saved reads the null pointer, whatever other threads
    saved. *)
Lemma getExn_other_thread (T T' : tid) (v : ptr) (st : state) :
  T <> T' ->
  exn_of T' (set_exn (<[T := v]> (exn st)) st) = exn_of T' st.
Proof. intros Hne. unfold exn_of. simpl. rewrite lookup_insert_ne; auto. Qed.

(** ** Process bootstrap *)

(** Compiled code cannot change what is captured: every call it makes finds
    the arguments as they were when it started, and so does its end. *)
Lemma run_keeps_args eof sgn pargc pargv (p : compiled) :
  forall st,
    captured pargc pargv st ->
    Forall (fun tcs => captured pargc pargv tcs.2) (run eof sgn p st).1 /\
    captured_at_end pargc pargv (run eof sgn p st).2.
Proof.
  induction p as [| e | t c k IH]; intros st Hst; simpl.
  - split; [constructor | exact Hst].
  - split; [constructor | exact Hst].
  - pose proof (frame_perform_args eof sgn t c st) as Hstep.
    destruct (perform eof sgn t c st) as [v st1 | e st1 |].
    + destruct (IH (Returned v) st1) as [Htr Hr].
      { destruct Hstep as [Hc Hv], Hst as [Hc' Hv']. split; congruence. }
      destruct (run eof sgn (k (Returned v)) st1) as [tr r]. simpl in *.
      split; [constructor; [exact Hst | exact Htr] | exact Hr].
    + destruct (IH (Raised e) st1) as [Htr Hr].
      { destruct Hstep as [Hc Hv], Hst as [Hc' Hv']. split; congruence. }
      destruct (run eof sgn (k (Raised e)) st1) as [tr r]. simpl in *.
      split; [constructor; [exact Hst | exact Htr] | exact Hr].
    + simpl. split; [constructor; [exact Hst | constructor] | exact I].
Qed.

(** C9. [main] stores its arguments first; [SKIP_initializeSkip] then runs
    from a state that has them, and [skip_main] runs from the state
    [SKIP_initializeSkip] returned in.  The trace of [main] is the calls of
    the first followed by the calls of the second, and every one of these
    calls, and the end of the run, finds [argc] and [argv] as [main] stored
    them. *)
Theorem main_captures_arguments eof sgn (pargc : Z) (pargv : list (list byte))
    (SKIP_initializeSkip skip_main : compiled) (st : state) :
  let booted := set_args pargc (Some pargv) st in
  let init := run eof sgn SKIP_initializeSkip booted in
  let whole := main eof sgn pargc pargv SKIP_initializeSkip skip_main st in
  captured pargc pargv booted /\
  whole.1 = init.1 ++ match init.2 with
                      | Returns st1 => (run eof sgn skip_main st1).1
                      | _ => []
                      end /\
  whole.2 = match init.2 with
            | Returns st1 => (run eof sgn skip_main st1).2
            | r => r
            end /\
  Forall (fun tcs => captured pargc pargv tcs.2) whole.1 /\
  captured_at_end pargc pargv whole.2.
Proof.
  intros booted init whole.
  assert (Hb : captured pargc pargv booted) by (split; reflexivity).
  assert (Hmain : whole = match init.2 with
                          | Returns st1 =>
                              (init.1 ++ (run eof sgn skip_main st1).1,
                               (run eof sgn skip_main st1).2)
                          | _ => init
                          end).
  { subst whole init. unfold main. fold booted.
    change (set_args (argc (set_args pargc (argv st) st)) (Some pargv)
              (set_args pargc (argv st) st)) with booted.
    destruct (run eof sgn SKIP_initializeSkip booted) as [tr1 r1]. simpl.
    destruct r1 as [st1 | e st1 |]; [| reflexivity | reflexivity].
    destruct (run eof sgn skip_main st1) as [tr2 r2]. reflexivity. }
  destruct (run_keeps_args eof sgn pargc pargv SKIP_initializeSkip booted Hb)
    as [Htr1 Hr1].
  fold init in Htr1, Hr1.
  destruct init as [tr1 r1]. simpl in *.
  destruct r1 as [st1 | e st1 |]; rewrite Hmain; simpl.
  - destruct (run_keeps_args eof sgn pargc pargv skip_main st1 Hr1) as [Htr2 Hr2].
    split; [exact Hb |]. split; [reflexivity |]. split; [reflexivity |].
    split; [apply Forall_app; split; assumption | exact Hr2].
  - rewrite app_nil_r.
    split; [exact Hb |]. split; [reflexivity |]. split; [reflexivity |].
    split; [exact Htr1 | exact Hr1].
  - rewrite app_nil_r.
    split; [exact Hb |]. split; [reflexivity |]. split; [reflexivity |].
    split; [exact Htr1 | exact I].
Qed.

(** Started with "prog", "--flag", "value", an initialization that does
    nothing and an entry point that prints its first argument: the run ends
    normally with "--flag" and a line feed on standard output. *)
Lemma start_print_first_argument :
  exists tr st',
    start 7 true prog_flag_value Return print_first_argument (boot []) = (tr, Returns st') /\
    written (stdout st') = bytes "--flag" ++ [LF] /\
    captured 3 prog_flag_value st'.
Proof.
  eexists. eexists. split; [vm_compute; reflexivity |].
  split; [reflexivity | split; reflexivity].
Qed.

(** ** Line input buffer *)

Lemma extract_line_terminated (line rest : list byte) (e : stream_end) :
  LF ∉ line ->
  extract_line (line ++ LF :: rest) e = (line, rest, AtDelimiter).
Proof.
  induction line as [| c line IH]; intros Hnl; simpl.
  - reflexivity.
  - apply not_elem_of_cons in Hnl as [Hc Hline].
    destruct (Byte.eqb c LF) eqn:E.
    + apply Byte.byte_dec_bl in E. congruence.
    + rewrite (IH Hline). reflexivity.
Qed.

Lemma extract_line_unterminated (line : list byte) (e : stream_end) :
  LF ∉ line ->
  extract_line line e = (line, [], stop_of e).
Proof.
  induction line as [| c line IH]; intros Hnl; simpl.
  - destruct e; reflexivity.
  - apply not_elem_of_cons in Hnl as [Hc Hline].
    destruct (Byte.eqb c LF) eqn:E.
    + apply Byte.byte_dec_bl in E. congruence.
    + rewrite (IH Hline). reflexivity.
Qed.

Lemma lineBuffer_of_insert t buf m st :
  lineBuffer_of t (set_cin m (set_lineBuffer (<[t := buf]> (lineBuffer st)) st)) = buf.
Proof. unfold lineBuffer_of. simpl. rewrite lookup_insert_eq. reflexivity. Qed.

(** [SKIP_read_line_fill] in terms of what [getline] leaves behind. *)
Lemma SKIP_read_line_fill_unfold eof t st :
  SKIP_read_line_fill eof t st =
  let s := (getline (cin st) (lineBuffer_of t st)).1 in
  let buf := (getline (cin st) (lineBuffer_of t st)).2 in
  let st' := set_cin s (set_lineBuffer (<[t := buf]> (lineBuffer st)) st) in
  if ios_fail s then Throw eof st'
  else Ret (to_uint32 (Z.of_nat (length buf))) st'.
Proof.
  unfold SKIP_read_line_fill, bind, modify, get_state, ret.
  destruct (getline (cin st) (lineBuffer_of t st)) as [s buf]. simpl.
  destruct (ios_fail s); simpl; [reflexivity |].
  rewrite lineBuffer_of_insert. reflexivity.
Qed.

(** A terminated line is returned: the count is its length as a [uint32_t],
    the buffer holds it whatever it held before, and the stream stays good,
    positioned after the terminator. *)
Lemma SKIP_read_line_fill_terminated eof t st line rest :
  ios_good (cin st) = true ->
  LF ∉ line ->
  pending (cin st) = line ++ LF :: rest ->
  SKIP_read_line_fill eof t st =
  Ret (to_uint32 (Z.of_nat (length line)))
      (set_cin (mk_istream rest (ending (cin st)) false false false)
               (set_lineBuffer (<[t := line]> (lineBuffer st)) st)).
Proof.
  intros Hgood Hnl Hpending.
  rewrite SKIP_read_line_fill_unfold. unfold getline.
  rewrite Hgood, Hpending, (extract_line_terminated _ _ _ Hnl). reflexivity.
Qed.

(** A last line without terminator is returned as well, provided it is not
    empty and the input ends with end-of-file; the stream is then at
    end-of-file. *)
Lemma SKIP_read_line_fill_last_line eof t st line :
  ios_good (cin st) = true ->
  LF ∉ line -> line <> [] ->
  pending (cin st) = line -> ending (cin st) = EndOfInput ->
  SKIP_read_line_fill eof t st =
  Ret (to_uint32 (Z.of_nat (length line)))
      (set_cin (mk_istream [] EndOfInput true false false)
               (set_lineBuffer (<[t := line]> (lineBuffer st)) st)).
Proof.
  intros Hgood Hnl Hne Hpending Hend.
  rewrite SKIP_read_line_fill_unfold. unfold getline.
  rewrite Hgood, Hpending, Hend, (extract_line_unterminated _ _ Hnl). simpl.
  destruct line; [congruence | reflexivity].
Qed.

(** The relay's raise: the call does not return, [skip::SkipException(exc)]
    propagates. *)
Lemma SKIP_throw_spec exc st : SKIP_throw exc st = Throw exc st.
Proof. reflexivity. Qed.

(** C2, as the code has it.  When the stream can deliver no byte at all to
    the call (it is at end-of-file, or its read fails, before any byte of a
    line), when it already carries an end-of-file or error bit from an
    earlier call, or when the library throws while it extracts the line,
    [SKIP_read_line_fill] returns no count: it leaves by the exception that
    the relay's [SKIP_throw] raises for the end-of-file value. *)
Theorem read_line_fill_raises eof (t : tid) (st : state) :
  exhausted (cin st) \/ faulty (cin st) ->
  exists st', SKIP_read_line_fill eof t st = Throw eof st'.
Proof.
  intros H. rewrite SKIP_read_line_fill_unfold. unfold getline.
  destruct (ios_good (cin st)) eqn:Hgood.
  - destruct H as [Hex | [Hbad | [Hend Hnl]]].
    + unfold exhausted in Hex. rewrite Hex. simpl.
      destruct (ending (cin st)); simpl; eexists; reflexivity.
    + congruence.
    + rewrite (extract_line_unterminated _ _ Hnl), Hend. simpl.
      unfold ios_fail. simpl. rewrite orb_true_r. eexists; reflexivity.
  - simpl. eexists; reflexivity.
Qed.

(** The shape of what the extraction loop returns. *)
Lemma extract_line_shape (input : list byte) (e : stream_end) l r w :
  extract_line input e = (l, r, w) ->
  (LF ∉ l) /\
  match w with
  | AtDelimiter => input = l ++ LF :: r
  | _ => input = l /\ r = [] /\ w = stop_of e
  end.
Proof.
  revert l r w. induction input as [| c input IH]; intros l r w; simpl.
  - intros [= <- <- <-]. split; [apply not_elem_of_nil |].
    destruct e; simpl; auto.
  - destruct (Byte.eqb c LF) eqn:Ec.
    + intros [= <- <- <-]. apply Byte.byte_dec_bl in Ec. subst c.
      split; [apply not_elem_of_nil | reflexivity].
    + destruct (extract_line input e) as [[l0 r0] w0] eqn:E0.
      intros [= <- <- <-]. destruct (IH l0 r0 w0 eq_refl) as [Hnl Hw].
      apply Byte.eqb_false in Ec. split.
      * apply not_elem_of_cons. split; [congruence | exact Hnl].
      * destruct w0; [rewrite Hw; reflexivity | |];
          destruct Hw as (-> & -> & Hs); auto.
Qed.

(** Conversely a call that returns has read a line. *)
Lemma SKIP_read_line_fill_returned eof t st n st' :
  SKIP_read_line_fill eof t st = Ret n st' ->
  ios_good (cin st) = true /\
  exists line rest,
    next_line (cin st) line rest /\
    n = to_uint32 (Z.of_nat (length line)) /\
    lineBuffer_of t st' = line.
Proof.
  intros H. rewrite SKIP_read_line_fill_unfold in H. unfold getline in H.
  destruct (ios_good (cin st)) eqn:Hgood; simpl in H; [| discriminate].
  destruct (extract_line (pending (cin st)) (ending (cin st)))
    as [[line rest] why] eqn:E.
  destruct (extract_line_shape _ _ _ _ _ E) as [Hnl Hw]. split; [reflexivity |].
  destruct why; simpl in H.
  - injection H as <- <-. exists line, rest. split; [| split].
    + split; [exact Hnl | left; exact Hw].
    + reflexivity.
    + apply lineBuffer_of_insert.
  - destruct line as [| c line]; simpl in H; [discriminate |].
    injection H as <- <-. destruct Hw as (Hp & Hr & Hs). exists (c :: line), rest.
    split; [| split].
    + split; [exact Hnl |]. right. split; [exact Hp |]. split; [exact Hr |].
      split; [discriminate |]. destruct (ending (cin st)); [reflexivity | discriminate].
    + reflexivity.
    + apply lineBuffer_of_insert.
  - unfold ios_fail in H. simpl in H. rewrite orb_true_r in H. discriminate.
Qed.

(** C3, as the code has it.  When the stream is good and a line is ahead,
    [SKIP_read_line_fill] returns the number of bytes of the line without its
    terminator, reduced modulo 2^32 (the count is a [uint32_t]; it is the
    number itself for every line shorter than 2^32 bytes); the calling
    thread's [lineBuffer] then holds exactly these bytes, whatever it held
    before; the terminator is consumed, the rest of the input is left for the
    next call, and after a terminated line the stream is still good. *)
Theorem read_line_fill_returns_line eof (t : tid) (st : state)
    (line rest : list byte) :
  ios_good (cin st) = true ->
  next_line (cin st) line rest ->
  exists st',
    SKIP_read_line_fill eof t st = Ret (Z.of_nat (length line) mod 2 ^ 32) st' /\
    (Z.of_nat (length line) < 2 ^ 32 ->
     Z.of_nat (length line) mod 2 ^ 32 = Z.of_nat (length line)) /\
    lineBuffer_of t st' = line /\
    pending (cin st') = rest /\
    (terminated_line (cin st) line rest -> ios_good (cin st') = true).
Proof.
  intros Hgood [Hnl [Hterm | (Hp & -> & Hne & Hend)]].
  - eexists. split; [| split; [| split; [| split]]].
    + apply SKIP_read_line_fill_terminated; eassumption.
    + intros Hlt. apply Z.mod_small. lia.
    + apply lineBuffer_of_insert.
    + reflexivity.
    + reflexivity.
  - eexists. split; [| split; [| split; [| split]]].
    + apply SKIP_read_line_fill_last_line; eassumption.
    + intros Hlt. apply Z.mod_small. lia.
    + apply lineBuffer_of_insert.
    + reflexivity.
    + unfold terminated_line. rewrite Hp. intros Habs. exfalso.
      apply (f_equal length) in Habs. rewrite length_app in Habs.
      simpl in Habs. lia.
Qed.

(** Standard input with no bytes, at once at end-of-file: the first
    [SKIP_read_line_fill] raises. *)
Lemma read_line_fill_raises_on_empty_input :
  (exhausted (cin (boot [])) \/ faulty (cin (boot []))) /\
  exists st', SKIP_read_line_fill 7 0%nat (boot []) = Throw 7 st'.
Proof.
  split.
  - left. reflexivity.
  - apply (read_line_fill_raises 7 0%nat (boot [])). left. reflexivity.
Defined.

Lemma not_elem_of_bytes (b : byte) (l : list byte) :
  forallb (fun c => negb (Byte.eqb c b)) l = true -> b ∉ l.
Proof.
  intros H Hin. rewrite forallb_forall in H.
  apply list_elem_of_In in Hin. specialize (H b Hin).
  rewrite (Byte.byte_dec_lb (eq_refl b)) in H. discriminate.
Qed.

(** Standard input delivers "abc" and then breaks off, by end-of-file or
    by a read that fails, before any line terminator: the call returns the
    count 3 with "abc" in the buffer and the stream at end-of-file but not
    failed; it is the next call that throws. *)
Lemma read_line_fill_returns_cut_line :
  exists st1 st2,
    SKIP_read_line_fill 7 0%nat (boot (bytes "abc")) = Ret 3 st1 /\
    lineBuffer_of 0%nat st1 = bytes "abc" /\
    eofbit (cin st1) = true /\ ios_fail (cin st1) = false /\
    SKIP_read_line_fill 7 0%nat st1 = Throw 7 st2.
Proof.
  eexists. eexists. split; [| split; [| split; [| split]]].
  - apply (SKIP_read_line_fill_last_line 7 0%nat (boot (bytes "abc")) (bytes "abc")).
    + reflexivity.
    + apply not_elem_of_bytes. reflexivity.
    + discriminate.
    + reflexivity.
    + reflexivity.
  - apply lineBuffer_of_insert.
  - reflexivity.
  - reflexivity.
  - rewrite SKIP_read_line_fill_unfold. reflexivity.
Qed.

(** On the input "hello", line feed, "world", line feed: the first call
    returns 5 and the buffer holds "hello"; the second returns 5 and the
    buffer holds "world". *)
Lemma read_line_fill_hello_world :
  exists st1 st2,
    SKIP_read_line_fill 7 0%nat (boot (bytes "hello" ++ LF :: bytes "world" ++ [LF]))
      = Ret 5 st1 /\
    lineBuffer_of 0%nat st1 = bytes "hello" /\
    SKIP_read_line_fill 7 0%nat st1 = Ret 5 st2 /\
    lineBuffer_of 0%nat st2 = bytes "world".
Proof.
  assert (H1 : next_line (cin (boot (bytes "hello" ++ LF :: bytes "world" ++ [LF])))
                 (bytes "hello") (bytes "world" ++ [LF])).
  { split; [apply not_elem_of_bytes; reflexivity | left; reflexivity]. }
  destruct (read_line_fill_returns_line 7 0%nat
              (boot (bytes "hello" ++ LF :: bytes "world" ++ [LF])) _ _ eq_refl H1)
    as (st1 & Hret1 & _ & Hbuf1 & Hrest1 & Hgood1).
  assert (H2 : next_line (cin st1) (bytes "world") []).
  { split; [apply not_elem_of_bytes; reflexivity | left; exact Hrest1]. }
  destruct (read_line_fill_returns_line 7 0%nat st1 _ _
              (Hgood1 ltac:(reflexivity)) H2)
    as (st2 & Hret2 & _ & Hbuf2 & _ & _).
  exists st1, st2. repeat split; assumption.
Defined.

(** A line of [n] bytes "a". *)
Lemma read_line_fill_long_line (n : nat) :
  exists st',
    SKIP_read_line_fill 7 0%nat (boot (replicate n "a"%byte ++ [LF]))
      = Ret (to_uint32 (Z.of_nat n)) st' /\
    lineBuffer_of 0%nat st' = replicate n "a"%byte /\
    Z.of_nat (length (lineBuffer_of 0%nat st')) = Z.of_nat n.
Proof.
  assert (Hnl : LF ∉ replicate n "a"%byte).
  { intros Hin. apply elem_of_replicate in Hin as [Heq _]. discriminate Heq. }
  eexists. split; [| split].
  - rewrite (SKIP_read_line_fill_terminated 7 0%nat
               (boot (replicate n "a"%byte ++ [LF])) (replicate n "a"%byte) []
               eq_refl Hnl eq_refl).
    rewrite length_replicate. reflexivity.
  - apply lineBuffer_of_insert.
  - rewrite lineBuffer_of_insert, length_replicate. reflexivity.
Qed.

(** A line of 2^32 bytes: the call succeeds, the buffer holds all 2^32 bytes,
    and the count returned is 0. *)
Lemma read_line_fill_count_wraps :
  exists st',
    SKIP_read_line_fill 7 0%nat
      (boot (replicate (Z.to_nat 4294967296) "a"%byte ++ [LF])) = Ret 0 st' /\
    lineBuffer_of 0%nat st' = replicate (Z.to_nat 4294967296) "a"%byte /\
    Z.of_nat (length (lineBuffer_of 0%nat st')) = 4294967296.
Proof.
  pose proof (read_line_fill_long_line (Z.to_nat 4294967296)) as H.
  rewrite Z2Nat.id in H by discriminate.
  exact H.
Qed.

(** A byte is a value in 0..255. *)
Lemma byte_val_range (b : byte) : 0 <= byte_val b < 256.
Proof.
  unfold byte_val. pose proof (Byte.to_N_bounded b). lia.
Qed.

(** The conversion of a [char] to [uint32_t]. *)
Lemma char_to_uint32_unsigned (c : byte) : to_uint32 (char_val false c) = byte_val c.
Proof.
  unfold char_val, to_uint32, uint32_max. simpl.
  pose proof (byte_val_range c). apply Z.mod_small. lia.
Qed.

Lemma char_to_uint32_low sgn (c : byte) :
  byte_val c < 128 -> to_uint32 (char_val sgn c) = byte_val c.
Proof.
  intros Hlow. unfold char_val, to_uint32, uint32_max.
  pose proof (byte_val_range c).
  replace (128 <=? byte_val c) with false by (symmetry; apply Z.leb_gt; lia).
  rewrite andb_false_r. apply Z.mod_small. lia.
Qed.

(** Where [char] is signed, a byte of 128 or more is sign-extended. *)
Lemma char_to_uint32_signed_high (c : byte) :
  128 <= byte_val c -> to_uint32 (char_val true c) = byte_val c + 4294967040.
Proof.
  intros Hhigh. unfold char_val, to_uint32, uint32_max.
  pose proof (byte_val_range c).
  replace (128 <=? byte_val c) with true by (symmetry; apply Z.leb_le; lia).
  simpl andb. cbv iota.
  replace (byte_val c - 256) with (byte_val c + 4294967040 + (-1) * 4294967296) by lia.
  rewrite Z.mod_add by discriminate. apply Z.mod_small. lia.
Qed.

(** [SKIP_read_line_get] at an index inside the buffer. *)
Lemma SKIP_read_line_get_inside sgn t i st c :
  lineBuffer_of t st !! Z.to_nat i = Some c ->
  SKIP_read_line_get sgn t i st = Ret (to_uint32 (char_val sgn c)) st.
Proof.
  intros Hc. unfold SKIP_read_line_get, bind, get_state. rewrite Hc. reflexivity.
Qed.

(** Below the count returned by a successful [SKIP_read_line_fill] the index
    is inside the buffer. *)
Lemma count_inside_buffer (buf : list byte) (i : Z) :
  0 <= i < to_uint32 (Z.of_nat (length buf)) ->
  exists c, buf !! Z.to_nat i = Some c.
Proof.
  intros [Hlo Hhi]. apply lookup_lt_is_Some_2.
  unfold to_uint32, uint32_max in Hhi.
  pose proof (Z.mod_le (Z.of_nat (length buf)) 4294967296 ltac:(lia) ltac:(lia)).
  lia.
Qed.

(** A byte below 128, and every byte where [char] is unsigned, comes back
    as its value. *)
Lemma read_line_get_plain_byte sgn t i st c :
  lineBuffer_of t st !! Z.to_nat i = Some c ->
  sgn = false \/ byte_val c < 128 ->
  SKIP_read_line_get sgn t i st = Ret (byte_val c) st.
Proof.
  intros Hc Hplain. rewrite (SKIP_read_line_get_inside _ _ _ _ _ Hc).
  destruct Hplain as [-> | Hlow].
  - rewrite char_to_uint32_unsigned. reflexivity.
  - rewrite char_to_uint32_low by exact Hlow. reflexivity.
Qed.

(** Where [char] is signed, a byte of 128 or more comes back with the upper
    24 bits set. *)
Lemma read_line_get_high_byte sgn t i st c :
  lineBuffer_of t st !! Z.to_nat i = Some c ->
  sgn = true -> 128 <= byte_val c ->
  SKIP_read_line_get sgn t i st = Ret (byte_val c + 4294967040) st.
Proof.
  intros Hc -> Hhigh. rewrite (SKIP_read_line_get_inside _ _ _ _ _ Hc).
  rewrite char_to_uint32_signed_high by exact Hhigh. reflexivity.
Qed.

(** C4 on the code, where [char] is signed (x86-64).  Standard input holds
    the two bytes 0xC3 0xA9 and a line feed.  [SKIP_read_line_fill] returns
    2 and the buffer holds the two bytes; [SKIP_read_line_get 0] then returns
    4294967235, not the byte's value 195, and [SKIP_read_line_get 1] returns
    4294967209, not 169. *)
Theorem read_line_get_sign_extends_high_bytes :
  exists st1,
    SKIP_read_line_fill 7 0%nat (boot [xc3; xa9; LF]) = Ret 2 st1 /\
    lineBuffer_of 0%nat st1 = [xc3; xa9] /\
    SKIP_read_line_get true 0%nat 0 st1 = Ret 4294967235 st1 /\
    SKIP_read_line_get true 0%nat 1 st1 = Ret 4294967209 st1 /\
    byte_val xc3 = 195 /\ byte_val xa9 = 169.
Proof.
  eexists. split; [| split; [| split; [| split; [| split]]]].
  - apply (SKIP_read_line_fill_terminated 7 0%nat (boot [xc3; xa9; LF]) [xc3; xa9] []).
    + reflexivity.
    + apply not_elem_of_bytes. reflexivity.
    + reflexivity.
  - apply lineBuffer_of_insert.
  - rewrite (SKIP_read_line_get_inside true 0%nat 0 _ xc3); [reflexivity |].
    rewrite lineBuffer_of_insert. reflexivity.
  - rewrite (SKIP_read_line_get_inside true 0%nat 1 _ xa9); [reflexivity |].
    rewrite lineBuffer_of_insert. reflexivity.
  - reflexivity.
  - reflexivity.
Qed.

(** ** Argument accessor *)

Lemma c_str_c_mem (a : list byte) : NUL ∉ a -> c_str (c_mem a) = a.
Proof.
  unfold c_mem. induction a as [| b a IH]; intros Hnz; simpl.
  - reflexivity.
  - apply not_elem_of_cons in Hnz as [Hb Ha].
    destruct (Byte.eqb b NUL) eqn:E.
    + apply Byte.byte_dec_bl in E. congruence.
    + rewrite (IH Ha). reflexivity.
Qed.

Lemma strlen_c_mem (a : list byte) : NUL ∉ a -> strlen (c_mem a) = Z.of_nat (length a).
Proof. intros Hnz. unfold strlen. rewrite (c_str_c_mem a Hnz). reflexivity. Qed.

Lemma sk_string_create_c_mem (a : list byte) :
  sk_string_create (c_mem a) (Z.of_nat (length a)) = a.
Proof.
  unfold sk_string_create, c_mem. rewrite Nat2Z.id.
  apply take_app_length.
Qed.

Lemma SKIP_getArgc_spec st : SKIP_getArgc st = Ret (to_uint32 (argc st - 1)) st.
Proof. reflexivity. Qed.

(** [SKIP_getArgN] at an index that, incremented, names an entry of [argv]. *)
Lemma SKIP_getArgN_entry n st v a :
  argv st = Some v ->
  v !! Z.to_nat (to_uint32 (n + 1)) = Some a ->
  SKIP_getArgN n st = Ret (sk_string_create (c_mem a) (to_uint32 (strlen (c_mem a)))) st.
Proof.
  intros Hv Ha. unfold SKIP_getArgN, bind, get_state. rewrite Hv, Ha. reflexivity.
Qed.

(** C5. With a vector of at least one argument captured, [SKIP_getArgc]
    returns its length minus 1, and for every [n] from 0 below that count
    [SKIP_getArgN n] returns a runtime string made of the bytes of entry
    [n+1] of the vector. *)
Theorem arguments_by_index (args : list (list byte)) (st : state) :
  (1 <= length args)%nat ->
  host_args args ->
  captured (Z.of_nat (length args)) args st ->
  SKIP_getArgc st = Ret (Z.of_nat (length args) - 1) st /\
  forall n : Z,
    0 <= n < Z.of_nat (length args) - 1 ->
    exists a,
      args !! (Z.to_nat n + 1)%nat = Some a /\
      SKIP_getArgN n st = Ret (sk_string_create (c_mem a) (Z.of_nat (length a))) st /\
      sk_string_create (c_mem a) (Z.of_nat (length a)) = a.
Proof.
  intros Hlen [Hint Hstrs] [Hargc Hargv]. split.
  - rewrite SKIP_getArgc_spec, Hargc. f_equal.
    unfold to_uint32, uint32_max. apply Z.mod_small. lia.
  - intros n Hn.
    assert (Hidx : to_uint32 (n + 1) = n + 1).
    { unfold to_uint32, uint32_max. apply Z.mod_small. lia. }
    destruct (lookup_lt_is_Some_2 args (Z.to_nat n + 1)) as [a Ha]; [lia |].
    exists a. split; [exact Ha |].
    pose proof (proj1 (Forall_forall _ _) Hstrs a (list_elem_of_lookup_2 _ _ _ Ha))
      as [Hnz Hshort].
    split; [| apply sk_string_create_c_mem].
    rewrite (SKIP_getArgN_entry n st args a Hargv).
    + rewrite (strlen_c_mem a Hnz). unfold to_uint32, uint32_max.
      rewrite Z.mod_small by lia. reflexivity.
    + rewrite Hidx. replace (Z.to_nat (n + 1)) with (Z.to_nat n + 1)%nat by lia.
      exact Ha.
Qed.

(** A process started with "prog", "--flag", "value": the count is 2,
    argument 0 is "--flag" and argument 1 is "value". *)
Lemma arguments_by_index_prog_flag_value :
  ((1 <= length prog_flag_value)%nat /\ host_args prog_flag_value /\
   captured (Z.of_nat (length prog_flag_value)) prog_flag_value
            started_prog_flag_value) /\
  SKIP_getArgc started_prog_flag_value = Ret 2 started_prog_flag_value /\
  SKIP_getArgN 0 started_prog_flag_value = Ret (bytes "--flag") started_prog_flag_value /\
  SKIP_getArgN 1 started_prog_flag_value = Ret (bytes "value") started_prog_flag_value.
Proof.
  assert (Hlen : (1 <= length prog_flag_value)%nat) by (simpl; lia).
  assert (Hhost : host_args prog_flag_value).
  { split; [reflexivity |].
    repeat (constructor; [split; [apply not_elem_of_bytes; reflexivity | reflexivity] |]).
    constructor. }
  assert (Hcap : captured (Z.of_nat (length prog_flag_value)) prog_flag_value
                          started_prog_flag_value)
    by (split; reflexivity).
  split; [split; [exact Hlen | split; [exact Hhost | exact Hcap]] |].
  destruct (arguments_by_index prog_flag_value started_prog_flag_value Hlen Hhost Hcap)
    as [Hc Hn].
  split; [exact Hc |].
  destruct (Hn 0 ltac:(simpl; lia)) as (a0 & Ha0 & Hget0 & _).
  destruct (Hn 1 ltac:(simpl; lia)) as (a1 & Ha1 & Hget1 & _).
  injection Ha0 as <-. injection Ha1 as <-.
  split; [exact Hget0 | exact Hget1].
Defined.

(** ** Output routines *)

Lemma malloc_ok n st :
  can_malloc n st ->
  malloc n st =
  Ret (Some (fresh (dom (heap st))))
      (set_heap (<[fresh (dom (heap st)) := replicate (Z.to_nat n) indeterminate]> (heap st))
                (option_map (fun q => q - n) (quota st)) st).
Proof.
  unfold can_malloc, malloc. destruct (quota st) as [q|]; [| reflexivity].
  intros Hq. replace (q <? n) with false by (symmetry; apply Z.ltb_ge; lia).
  reflexivity.
Qed.

Lemma malloc_null n st :
  ~ can_malloc n st -> malloc n st = Ret None st.
Proof.
  unfold can_malloc, malloc. destruct (quota st) as [q|]; [| tauto].
  intros Hq. replace (q <? n) with true by (symmetry; apply Z.ltb_lt; lia).
  reflexivity.
Qed.

Lemma memcpy_ok b blk src n st :
  heap st !! b = Some blk ->
  n <= Z.of_nat (length blk) -> n <= Z.of_nat (length src) ->
  memcpy (Some b) src n st =
  Ret tt (set_heap (<[b := take (Z.to_nat n) src ++ drop (Z.to_nat n) blk]> (heap st))
                   (quota st) st).
Proof.
  intros Hb H1 H2. unfold memcpy. rewrite Hb.
  rewrite (proj2 (Z.leb_le _ _) H1), (proj2 (Z.leb_le _ _) H2). reflexivity.
Qed.

Lemma store_ok b blk i x st :
  heap st !! b = Some blk ->
  0 <= i < Z.of_nat (length blk) ->
  store (Some b) i x st =
  Ret tt (set_heap (<[b := <[Z.to_nat i := x]> blk]> (heap st)) (quota st) st).
Proof.
  intros Hb [H1 H2]. unfold store. rewrite Hb.
  rewrite (proj2 (Z.leb_le _ _) H1), (proj2 (Z.ltb_lt _ _) H2). reflexivity.
Qed.

Lemma fprintf_s_ok d b mem st :
  heap st !! b = Some mem ->
  has_NUL mem = true ->
  fprintf_s d (Some b) st = Ret tt (set_file d (put (c_str mem) (get_file d st)) st).
Proof.
  intros Hb Hnul. unfold fprintf_s, bind, get_state. rewrite Hb, Hnul. reflexivity.
Qed.

Lemma free_ok b blk st :
  heap st !! b = Some blk ->
  free (Some b) st =
  Ret tt (set_heap (delete b (heap st))
                   (option_map (fun q => q + Z.of_nat (length blk)) (quota st)) st).
Proof. intros Hb. unfold free. rewrite Hb. reflexivity. Qed.

Lemma has_NUL_c_mem (a : list byte) : has_NUL (c_mem a) = true.
Proof.
  unfold has_NUL, c_mem. rewrite existsb_app. simpl. apply orb_true_r.
Qed.

Lemma byteSize_le (str : skstring) :
  0 <= SKIP_String_byteSize str <= Z.of_nat (length str).
Proof.
  unfold SKIP_String_byteSize, to_uint32, uint32_max.
  pose proof (Z.mod_pos_bound (Z.of_nat (length str)) 4294967296 ltac:(lia)).
  pose proof (Z.mod_le (Z.of_nat (length str)) 4294967296 ltac:(lia) ltac:(lia)).
  lia.
Qed.

(** The host buffer [print] builds: the first [size] bytes of the string and
    the terminating zero. *)
Lemma host_buffer (str : skstring) (size : nat) :
  (size <= length str)%nat ->
  <[size := NUL]> (take size str ++ drop size (replicate (size + 1) indeterminate))
  = c_mem (take size str).
Proof.
  intros Hsize. rewrite drop_replicate.
  replace (size + 1 - size)%nat with 1%nat by lia. simpl.
  pose proof (insert_app_r (take size str) [indeterminate] 0 NUL) as H.
  rewrite length_take_le, Nat.add_0_r in H by exact Hsize.
  exact H.
Qed.

Lemma state_eq (s s' : state) :
  argc s = argc s' -> argv s = argv s' -> exn s = exn s' ->
  lineBuffer s = lineBuffer s' -> cin s = cin s' ->
  stdout s = stdout s' -> stderr s = stderr s' ->
  heap s = heap s' -> quota s = quota s' ->
  s = s'.
Proof. destruct s, s'; simpl; intros; subst; reflexivity. Qed.

(** [print] when the allocation succeeds: it returns, the stream gets the
    C string of the host buffer, and nothing else has changed; the heap in
    particular is as before the call. *)
Lemma print_returns d (str : skstring) st :
  can_malloc (SKIP_String_byteSize str + 1) st ->
  print d str st =
  Ret tt (set_file d
            (put (c_str (c_mem (take (Z.to_nat (SKIP_String_byteSize str)) str)))
                 (get_file d st))
            st).
Proof.
  intros Hmem. pose proof (byteSize_le str) as Hsize.
  set (size := SKIP_String_byteSize str) in *.
  set (b := fresh (dom (heap st))).
  assert (Hfresh : heap st !! b = None).
  { apply not_elem_of_dom. apply is_fresh. }
  unfold print, bind. fold size.
  rewrite (malloc_ok _ _ Hmem). fold b.
  erewrite memcpy_ok; cycle 1.
  { simpl. apply lookup_insert_eq. }
  { rewrite length_replicate. lia. }
  { lia. }
  erewrite store_ok; cycle 1.
  { simpl. apply lookup_insert_eq. }
  { rewrite length_app, length_take, length_drop, length_replicate. lia. }
  erewrite fprintf_s_ok; cycle 1.
  { simpl. apply lookup_insert_eq. }
  { replace (Z.to_nat (size + 1)) with (Z.to_nat size + 1)%nat by lia.
    rewrite host_buffer by lia. apply has_NUL_c_mem. }
  erewrite free_ok; cycle 1.
  { destruct d; simpl; apply lookup_insert_eq. }
  replace (Z.to_nat (size + 1)) with (Z.to_nat size + 1)%nat by lia.
  rewrite host_buffer by lia.
  f_equal. apply state_eq; try (destruct d; reflexivity).
  - destruct d; simpl;
      rewrite !insert_insert_eq, delete_insert_eq; apply delete_id; exact Hfresh.
  - assert (Hlen : Z.of_nat (length (c_mem (take (Z.to_nat size) str))) = size + 1).
    { unfold c_mem. rewrite length_app, length_take. simpl. lia. }
    rewrite Hlen.
    destruct d; simpl; destruct (quota st) as [q|]; simpl; f_equal; lia.
Qed.

(** [print] when the allocation fails: [malloc] returns null and the copy
    through it is undefined; the routine does not return. *)
Lemma print_dies d (str : skstring) st :
  ~ can_malloc (SKIP_String_byteSize str + 1) st ->
  print d str st = Fault.
Proof.
  intros Hmem. unfold print, bind. rewrite (malloc_null _ _ Hmem). reflexivity.
Qed.

Lemma heap_restored_set_file d f st : heap_restored st (set_file d f st).
Proof. destruct d; split; reflexivity. Qed.

Lemma SKIP_print_raw_returns (str : skstring) st :
  can_malloc (SKIP_String_byteSize str + 1) st ->
  SKIP_print_raw str st =
  Ret tt (set_file Stdout
            (put (c_str (c_mem (take (Z.to_nat (SKIP_String_byteSize str)) str)))
                 (stdout st))
            st).
Proof. intros Hmem. unfold SKIP_print_raw. apply (print_returns Stdout str st Hmem). Qed.

Lemma print_string_returns (str : skstring) st :
  can_malloc (SKIP_String_byteSize str + 1) st ->
  print_string str st =
  Ret tt (set_file Stdout
            (put [LF]
               (put (c_str (c_mem (take (Z.to_nat (SKIP_String_byteSize str)) str)))
                    (stdout st)))
            st).
Proof.
  intros Hmem. unfold print_string, bind.
  rewrite (print_returns Stdout str st Hmem). reflexivity.
Qed.

Lemma SKIP_print_error_returns (str : skstring) st :
  can_malloc (SKIP_String_byteSize str + 1) st ->
  SKIP_print_error str st =
  Ret tt (set_file Stderr
            (put [LF]
               (put (c_str (c_mem (take (Z.to_nat (SKIP_String_byteSize str)) str)))
                    (stderr st)))
            st).
Proof.
  intros Hmem. unfold SKIP_print_error, bind.
  rewrite (print_returns Stderr str st Hmem). reflexivity.
Qed.

(** C8. Given the memory for the host buffer, [print] and the three routines
    built on it return, whatever the stream does with the write (the state
    is arbitrary: the stream may have no room at all), and when they return
    the heap is as it was before the call: the buffer they allocated is
    released.  The argument routines allocate no host buffer: they return in
    the state they were called in. *)
Theorem host_buffer_released (str : skstring) (st : state) :
  can_malloc (SKIP_String_byteSize str + 1) st ->
  (forall d, exists st', print d str st = Ret tt st' /\ heap_restored st st') /\
  (exists st', SKIP_print_raw str st = Ret tt st' /\ heap_restored st st') /\
  (exists st', print_string str st = Ret tt st' /\ heap_restored st st') /\
  (exists st', SKIP_print_error str st = Ret tt st' /\ heap_restored st st') /\
  frame (fun s s' => s' = s) SKIP_getArgc /\
  (forall n, frame (fun s s' => s' = s) (SKIP_getArgN n)).
Proof.
  intros Hmem. split; [| split; [| split; [| split; [| split]]]].
  - intros d. eexists. split; [apply (print_returns d str st Hmem) |].
    apply heap_restored_set_file.
  - eexists. split; [apply (SKIP_print_raw_returns str st Hmem) |].
    apply heap_restored_set_file.
  - eexists. split; [apply (print_string_returns str st Hmem) |].
    apply heap_restored_set_file.
  - eexists. split; [apply (SKIP_print_error_returns str st Hmem) |].
    apply heap_restored_set_file.
  - unfold frame. intros s. simpl. reflexivity.
  - unfold frame. intros n s. unfold SKIP_getArgN, bind, get_state.
    destruct (argv s) as [v|]; [| exact I].
    destruct (v !! _); [reflexivity | exact I].
Qed.

(** "hello" printed to a standard output that fails the write: the routine
    returns, nothing was written, the error indicator is set, and the heap
    is as before. *)
Lemma host_buffer_released_on_failed_write :
  can_malloc (SKIP_String_byteSize (bytes "hello") + 1) cramped /\
  exists st',
    SKIP_print_raw (bytes "hello") cramped = Ret tt st' /\
    heap_restored cramped st' /\
    written (stdout st') = [] /\ ferror (stdout st') = true.
Proof.
  assert (Hmem : can_malloc (SKIP_String_byteSize (bytes "hello") + 1) cramped)
    by (vm_compute; discriminate).
  split; [exact Hmem |].
  destruct (host_buffer_released (bytes "hello") cramped Hmem)
    as (_ & (st' & Hret & Hheap) & _).
  exists st'. split; [exact Hret |]. split; [exact Hheap |].
  rewrite (SKIP_print_raw_returns _ _ Hmem) in Hret.
  injection Hret as <-. split; reflexivity.
Defined.

(** A write the stream has room for: all the bytes are taken, in order, and
    the error indicator is not touched. *)
Lemma put_accepted (bs : list byte) (f : FILE) :
  accepts f (length bs) ->
  written (put bs f) = written f ++ bs /\ ferror (put bs f) = ferror f.
Proof.
  unfold accepts, put. destruct (room f) as [r|]; simpl; [| split; reflexivity].
  intros Hr. rewrite take_ge by lia. split; [reflexivity |].
  replace (r <? length bs)%nat with false by (symmetry; apply Nat.ltb_ge; lia).
  apply orb_false_r.
Qed.

Lemma accepts_put (bs : list byte) (f : FILE) (n : nat) :
  accepts f (length bs + n) -> accepts (put bs f) n.
Proof.
  unfold accepts, put. destruct (room f) as [r|]; simpl; [| tauto].
  intros Hr. rewrite take_ge by lia. lia.
Qed.

(** The C string of a host buffer: for a string without zero byte, the
    string. *)
Lemma c_str_of_NUL_free (str : skstring) :
  NUL ∉ str -> Z.of_nat (length str) < 2 ^ 32 ->
  c_str (c_mem (take (Z.to_nat (SKIP_String_byteSize str)) str)) = str.
Proof.
  intros Hnz Hlen. unfold SKIP_String_byteSize, to_uint32, uint32_max.
  rewrite Z.mod_small by lia. rewrite Nat2Z.id, firstn_all.
  apply c_str_c_mem, Hnz.
Qed.

(** A string without zero byte is written whole, by [SKIP_print_raw] with
    nothing after it, by [print_string] with one line feed after it. *)
Lemma print_raw_NUL_free (str : skstring) (st : state) :
  NUL ∉ str -> Z.of_nat (length str) < 2 ^ 32 ->
  can_malloc (SKIP_String_byteSize str + 1) st ->
  accepts (stdout st) (length str) ->
  exists st',
    SKIP_print_raw str st = Ret tt st' /\
    written (stdout st') = written (stdout st) ++ str.
Proof.
  intros Hnz Hlen Hmem Hroom. eexists.
  split; [apply (SKIP_print_raw_returns str st Hmem) |].
  rewrite (c_str_of_NUL_free str Hnz Hlen). simpl.
  apply put_accepted, Hroom.
Qed.

Lemma print_string_NUL_free (str : skstring) (st : state) :
  NUL ∉ str -> Z.of_nat (length str) < 2 ^ 32 ->
  can_malloc (SKIP_String_byteSize str + 1) st ->
  accepts (stdout st) (length str + 1) ->
  exists st',
    print_string str st = Ret tt st' /\
    written (stdout st') = written (stdout st) ++ str ++ [LF].
Proof.
  intros Hnz Hlen Hmem Hroom. eexists.
  split; [apply (print_string_returns str st Hmem) |].
  rewrite (c_str_of_NUL_free str Hnz Hlen). simpl.
  destruct (put_accepted [LF] (put str (stdout st))) as [Hw _].
  { apply accepts_put, Hroom. }
  rewrite Hw.
  destruct (put_accepted str (stdout st)) as [Hw' _].
  { unfold accepts in *. destruct (room (stdout st)); [lia | exact I]. }
  rewrite Hw', <- app_assoc. reflexivity.
Qed.

(** The string of byte length 0: [print_string] writes one line feed and
    nothing else. *)
Lemma print_string_empty (st : state) :
  can_malloc 1 st ->
  accepts (stdout st) 1 ->
  exists st',
    print_string [] st = Ret tt st' /\
    written (stdout st') = written (stdout st) ++ [LF].
Proof.
  intros Hmem Hroom.
  destruct (print_string_NUL_free [] st) as (st' & Hret & Hw);
    [apply not_elem_of_nil | reflexivity | exact Hmem | exact Hroom |].
  exists st'. split; assumption.
Qed.

(** C6 on the code.  The runtime string of the three bytes "a", zero, "b"
    has byte size 3; [SKIP_print_raw] returns having written the one byte
    "a": the write stops at the zero byte. *)
Theorem print_raw_stops_at_zero_byte :
  exists st',
    SKIP_print_raw (bytes "a" ++ NUL :: bytes "b") (boot []) = Ret tt st' /\
    written (stdout st') = bytes "a" /\
    SKIP_String_byteSize (bytes "a" ++ NUL :: bytes "b") = 3.
Proof.
  eexists. split; [| split].
  - apply SKIP_print_raw_returns. exact I.
  - reflexivity.
  - reflexivity.
Qed.

(** C7 on the code.  For the same string [print_string] returns having
    written "a" and a line feed: the bytes after the zero byte, and the zero
    byte, are not written. *)
Theorem print_string_stops_at_zero_byte :
  exists st',
    print_string (bytes "a" ++ NUL :: bytes "b") (boot []) = Ret tt st' /\
    written (stdout st') = bytes "a" ++ [LF] /\
    SKIP_String_byteSize (bytes "a" ++ NUL :: bytes "b") = 3.
Proof.
  eexists. split; [| split].
  - apply print_string_returns. exact I.
  - reflexivity.
  - reflexivity.
Qed.

Lemma byte_val_of_Z (x : Z) : byte_val (byte_of_Z x) = x mod 256.
Proof.
  unfold byte_val, byte_of_Z.
  pose proof (Z.mod_pos_bound x 256 ltac:(lia)) as Hx.
  destruct (Byte.of_N (Z.to_N (x mod 256))) as [b|] eqn:E.
  - apply Byte.to_of_N in E. rewrite E. lia.
  - apply Byte.of_N_None_iff in E. lia.
Qed.

(** C10. [SKIP_print_char x], on a standard output that takes one more byte,
    returns having appended exactly one byte to it, whose value is [x]
    modulo 256; standard error gets nothing. *)
Theorem print_char_writes_low_byte (x : Z) (st : state) :
  accepts (stdout st) 1 ->
  exists st',
    SKIP_print_char x st = Ret tt st' /\
    written (stdout st') = written (stdout st) ++ [byte_of_Z x] /\
    byte_val (byte_of_Z x) = x mod 256 /\
    written (stderr st') = written (stderr st).
Proof.
  intros Hroom. eexists. split; [reflexivity |]. split; [| split].
  - simpl. apply (put_accepted [byte_of_Z x]), Hroom.
  - apply byte_val_of_Z.
  - reflexivity.
Qed.

(** Code point 321 (0x141): the one byte 0x41, "A", is written. *)
Lemma print_char_321 :
  accepts (stdout (boot [])) 1 /\
  exists st',
    SKIP_print_char 321 (boot []) = Ret tt st' /\
    written (stdout st') = [x41] /\
    byte_val x41 = 321 mod 256.
Proof.
  split; [exact I |].
  destruct (print_char_writes_low_byte 321 (boot []) I) as (st' & Hret & Hw & Hv & _).
  exists st'. split; [exact Hret |]. split; [exact Hw | exact Hv].
Defined.

(** * Further properties *)

(** ** What each routine can do to the state *)

Lemma can_malloc_dec n st : {can_malloc n st} + {~ can_malloc n st}.
Proof.
  unfold can_malloc. destruct (quota st) as [q|]; [apply Z_le_dec | left; exact I].
Qed.

(** [print] either runs into undefined behaviour or returns having written
    to its stream, and that is all it has done. *)
Lemma print_cases d (str : skstring) st :
  print d str st = Fault \/
  print d str st =
  Ret tt (set_file d
            (put (c_str (c_mem (take (Z.to_nat (SKIP_String_byteSize str)) str)))
                 (get_file d st))
            st).
Proof.
  destruct (can_malloc_dec (SKIP_String_byteSize str + 1) st) as [Hmem | Hmem].
  - right. apply print_returns, Hmem.
  - left. apply print_dies, Hmem.
Qed.

(** [SKIP_read_line_fill] returns or throws, and either way all it has
    changed is the stream and the calling thread's buffer. *)
Lemma SKIP_read_line_fill_cases eof t st :
  exists s buf,
    SKIP_read_line_fill eof t st
    = Throw eof (set_cin s (set_lineBuffer (<[t := buf]> (lineBuffer st)) st)) \/
    exists n,
      SKIP_read_line_fill eof t st
      = Ret n (set_cin s (set_lineBuffer (<[t := buf]> (lineBuffer st)) st)).
Proof.
  rewrite SKIP_read_line_fill_unfold. cbv zeta.
  exists (getline (cin st) (lineBuffer_of t st)).1,
         (getline (cin st) (lineBuffer_of t st)).2.
  destruct (ios_fail _); [left; reflexivity | right; eexists; reflexivity].
Qed.

Lemma frame_lift_any {A} (R : state -> state -> Prop) (f : A -> value) (m : M A) :
  frame R m -> frame R (lift f m).
Proof.
  intros Hm st. specialize (Hm st). unfold lift, bind, ret.
  destruct (m st); exact Hm.
Qed.

Section KeptByOutput.

Variable R : state -> state -> Prop.
Hypothesis HR : kept_by_output R.

Lemma frame_fputs_kept d bs : frame R (fputs d bs).
Proof. intros st. apply (ko_put R HR). Qed.

Lemma frame_print_kept d str : frame R (print d str).
Proof.
  intros st. destruct (print_cases d str st) as [-> | ->];
    [exact I | apply (ko_put R HR)].
Qed.

Lemma frame_print_then_fputs_kept d str bs :
  frame R (print d str ;;; fputs d bs).
Proof.
  intros st. unfold bind. destruct (print_cases d str st) as [-> | ->]; [exact I |].
  apply (ko_trans R HR _ _ _ (ko_put R HR st d _) (ko_put R HR _ d bs)).
Qed.

(** Every routine keeps [R], provided the three that do more than write,
    [SKIP_saveExn], [free_size] and [SKIP_read_line_fill], keep it when
    they are the one called. *)
Lemma frame_perform_kept eof sgn t c :
  (forall e, c = Call_saveExn e -> frame R (SKIP_saveExn t e)) ->
  (forall p size, c = Call_free_size p size -> frame R (free_size p size)) ->
  (c = Call_read_line_fill -> frame R (SKIP_read_line_fill eof t)) ->
  frame R (perform eof sgn t c).
Proof.
  intros Hsave Hfree Hread.
  destruct c as [x | exc | | i | | e | p size | | n | str | str | str];
    simpl; apply frame_lift_any.
  - apply frame_fputs_kept.
  - intros st. apply (ko_refl R HR).
  - apply Hread. reflexivity.
  - intros st. unfold SKIP_read_line_get, bind, get_state.
    destruct (_ !! _); [apply (ko_refl R HR) |].
    destruct (_ =? _); [apply (ko_refl R HR) | exact I].
  - intros st. apply (ko_refl R HR).
  - apply (Hsave e). reflexivity.
  - apply (Hfree p size). reflexivity.
  - intros st. apply (ko_refl R HR).
  - intros st. unfold SKIP_getArgN, bind, get_state.
    destruct (argv st) as [v|]; [| exact I].
    destruct (_ !! _); [apply (ko_refl R HR) | exact I].
  - apply frame_print_kept.
  - apply frame_print_then_fputs_kept.
  - apply frame_print_then_fputs_kept.
Qed.

Lemma perform_all_kept eof sgn cs :
  Forall (fun tc => frame R (perform eof sgn tc.1 tc.2)) cs ->
  forall st st', perform_all eof sgn cs st = Some st' -> R st st'.
Proof.
  induction 1 as [| [t c] cs Hc _ IH]; intros st st' Hrun; simpl in Hrun.
  - injection Hrun as <-. apply (ko_refl R HR).
  - specialize (Hc st). simpl in Hc.
    destruct (perform eof sgn t c st) as [v st1 | e st1 |]; [| | discriminate];
      apply (ko_trans R HR _ st1 _ Hc), IH, Hrun.
Qed.

End KeptByOutput.

Lemma output_extended_kept : kept_by_output output_extended.
Proof.
  split; unfold output_extended.
  - intros st. split; reflexivity.
  - intros a b c [H1 H2] [H3 H4]. split; etransitivity; eassumption.
  - intros st d bs. unfold put.
    destruct d; simpl; (split; [| try reflexivity]); try reflexivity;
      destruct (room _); simpl; eexists; reflexivity.
Qed.

Lemma same_blocks_kept : kept_by_output same_blocks.
Proof.
  split; unfold same_blocks.
  - reflexivity.
  - intros a b c -> ->. reflexivity.
  - intros st [] bs; reflexivity.
Qed.

Lemma same_line_kept T : kept_by_output (same_line T).
Proof.
  split; unfold same_line.
  - reflexivity.
  - intros a b c -> ->. reflexivity.
  - intros st [] bs; reflexivity.
Qed.

Lemma still_failed_kept : kept_by_output still_failed.
Proof.
  split; unfold still_failed.
  - auto.
  - auto.
  - intros st [] bs; auto.
Qed.

Lemma ios_fail_not_good (s : istream) : ios_fail s = true -> ios_good s = false.
Proof.
  unfold ios_fail, ios_good. destruct (eofbit s), (failbit s), (badbit s);
    simpl; congruence.
Qed.

(** On a stream that is not good [getline] only sets [failbit]. *)
Lemma getline_not_good (s : istream) (str : list byte) :
  ios_good s = false ->
  getline s str = (mk_istream (pending s) (ending s) (eofbit s) true (badbit s), str).
Proof. intros H. unfold getline. rewrite H. reflexivity. Qed.

(** A call on a failed stream throws, and leaves the stream failed and every
    line buffer as it was. *)
Lemma SKIP_read_line_fill_on_failed eof t st :
  ios_fail (cin st) = true ->
  SKIP_read_line_fill eof t st =
  Throw eof
    (set_cin (mk_istream (pending (cin st)) (ending (cin st)) (eofbit (cin st))
                         true (badbit (cin st)))
             (set_lineBuffer (<[t := lineBuffer_of t st]> (lineBuffer st)) st)).
Proof.
  intros Hfail. rewrite SKIP_read_line_fill_unfold.
  rewrite (getline_not_good _ _ (ios_fail_not_good _ Hfail)). reflexivity.
Qed.

Lemma frame_free_heap_only (R : state -> state -> Prop) p :
  (forall st, R st st) -> (forall st h q, R st (set_heap h q st)) -> frame R (free p).
Proof.
  intros Hrefl Hheap st. unfold free.
  destruct p as [b|]; [destruct (heap st !! b) |]; simpl; auto.
Qed.

(** Every call extends the output, or leaves it. *)
Lemma perform_extends_output eof sgn t c :
  frame output_extended (perform eof sgn t c).
Proof.
  apply (frame_perform_kept _ output_extended_kept).
  - intros e _ st. split; reflexivity.
  - intros p size _. apply frame_free_heap_only; intros; split; reflexivity.
  - intros _ st.
    destruct (SKIP_read_line_fill_cases eof t st) as (s & buf & [-> | [n ->]]);
      split; reflexivity.
Qed.

(** Every call but [free_size] returns with the blocks of the file's own
    [malloc] calls as they were. *)
Lemma perform_keeps_blocks eof sgn t c :
  ~ frees (t, c) -> frame same_blocks (perform eof sgn t c).
Proof.
  intros Hnf. apply (frame_perform_kept _ same_blocks_kept).
  - intros e _ st. reflexivity.
  - intros p size ->. exfalso. apply Hnf. exists p, size. reflexivity.
  - intros _ st.
    destruct (SKIP_read_line_fill_cases eof t st) as (s & buf & [-> | [n ->]]);
      reflexivity.
Qed.

(** Every call but a [SKIP_read_line_fill] on [T] leaves [T]'s line. *)
Lemma perform_keeps_line eof sgn T t c :
  ~ reads_on T (t, c) -> frame (same_line T) (perform eof sgn t c).
Proof.
  intros Hnr. apply (frame_perform_kept _ (same_line_kept T)).
  - intros e _ st. reflexivity.
  - intros p size _. apply frame_free_heap_only; intros; reflexivity.
  - intros -> st.
    assert (Hne : t <> T) by (intros ->; apply Hnr; reflexivity).
    destruct (SKIP_read_line_fill_cases eof t st) as (s & buf & [-> | [n ->]]);
      unfold same_line, lineBuffer_of; simpl;
      rewrite lookup_insert_ne by exact Hne; reflexivity.
Qed.

(** No call makes a failed stream good again. *)
Lemma perform_keeps_failed eof sgn t c :
  frame still_failed (perform eof sgn t c).
Proof.
  apply (frame_perform_kept _ still_failed_kept).
  - intros e _ st H. exact H.
  - intros p size _.
    apply frame_free_heap_only; unfold still_failed; intros; assumption.
  - intros _ st. unfold still_failed.
    destruct (ios_fail (cin st)) eqn:Hfail.
    + rewrite (SKIP_read_line_fill_on_failed eof t st Hfail). intros _. reflexivity.
    + destruct (SKIP_read_line_fill eof t st); try discriminate; exact I.
Qed.

(** ** Exception relay *)

(** X1. A thread that has saved nothing since the process started reads the
    null pointer from [SKIP_getExn], whatever the other threads have saved
    and whatever else was called in between. *)
Theorem getExn_without_save_is_null eof sgn (T : tid) (cs : list (tid * call))
    (st st' : state) :
  exn st !! T = None ->
  Forall (fun tc => ~ saves_on T tc) cs ->
  perform_all eof sgn cs st = Some st' ->
  SKIP_getExn T st' = Ret NULL st'.
Proof.
  intros Hnone Hcs Hrun. rewrite SKIP_getExn_spec. f_equal.
  rewrite (perform_all_keeps_slot eof sgn T cs Hcs _ _ Hrun).
  unfold exn_of. rewrite Hnone. reflexivity.
Qed.

(** Thread 1 saves 9 and prints; thread 0, which saved nothing, reads
    null. *)
Lemma getExn_without_save_is_null_two_threads :
  (exn (boot []) !! 0%nat = None /\
   Forall (fun tc => ~ saves_on 0%nat tc) other_thread_saves) /\
  exists st',
    perform_all 7 true other_thread_saves (boot []) = Some st' /\
    SKIP_getExn 0%nat st' = Ret NULL st'.
Proof.
  assert (Hcs : Forall (fun tc => ~ saves_on 0%nat tc) other_thread_saves).
  { repeat (constructor; [intros [e He]; discriminate He |]). constructor. }
  split; [split; [reflexivity | exact Hcs] |].
  eexists. split; [reflexivity |].
  eapply (getExn_without_save_is_null 7 true 0%nat other_thread_saves (boot []));
    [reflexivity | exact Hcs | reflexivity].
Defined.

(** ** Line input buffer *)

Lemma perform_all_keeps_line eof sgn T cs :
  Forall (fun tc => ~ reads_on T tc) cs ->
  forall st st', perform_all eof sgn cs st = Some st' -> same_line T st st'.
Proof.
  intros Hcs. apply (perform_all_kept _ (same_line_kept T)).
  eapply Forall_impl; [exact Hcs |].
  intros [t c] Hnr. apply perform_keeps_line, Hnr.
Qed.

(** X2. The line a thread has read stays in its buffer until that thread
    calls [SKIP_read_line_fill] again: whatever else is called, on this
    thread or on others (their line reads included), the buffer is the same
    and [SKIP_read_line_get] gives at every index the answer it gave. *)
Theorem line_kept_until_next_read eof sgn (T : tid) (cs : list (tid * call))
    (st st' : state) :
  Forall (fun tc => ~ reads_on T tc) cs ->
  perform_all eof sgn cs st = Some st' ->
  lineBuffer_of T st' = lineBuffer_of T st /\
  forall i v,
    SKIP_read_line_get sgn T i st = Ret v st ->
    SKIP_read_line_get sgn T i st' = Ret v st'.
Proof.
  intros Hcs Hrun.
  pose proof (perform_all_keeps_line eof sgn T cs Hcs st st' Hrun) as Hsame.
  unfold same_line in Hsame. split; [exact Hsame |].
  intros i v. unfold SKIP_read_line_get, bind, get_state, ret, undefined.
  rewrite Hsame.
  destruct (lineBuffer_of T st !! Z.to_nat i).
  - intros [= <-]. reflexivity.
  - destruct (i =? _); [intros [= <-]; reflexivity | discriminate].
Qed.

(** Thread 0 has read "hi"; thread 1 then reads the next line, thread 0
    prints and saves: thread 0's buffer still holds "hi" and answers "h",
    104, at index 0. *)
Lemma line_kept_until_next_read_two_threads :
  Forall (fun tc => ~ reads_on 0%nat tc) other_thread_reads /\
  exists st1 st2,
    SKIP_read_line_fill 7 0%nat (boot (bytes "hi" ++ LF :: bytes "there" ++ [LF]))
      = Ret 2 st1 /\
    perform_all 7 true other_thread_reads st1 = Some st2 /\
    lineBuffer_of 0%nat st2 = bytes "hi" /\
    SKIP_read_line_get true 0%nat 0 st2 = Ret 104 st2.
Proof.
  assert (Hcs : Forall (fun tc => ~ reads_on 0%nat tc) other_thread_reads).
  { repeat (constructor; [intros He; discriminate He |]). constructor. }
  split; [exact Hcs |].
  pose proof (SKIP_read_line_fill_terminated 7 0%nat
                (boot (bytes "hi" ++ LF :: bytes "there" ++ [LF]))
                (bytes "hi") (bytes "there" ++ [LF]) eq_refl
                (not_elem_of_bytes LF (bytes "hi") eq_refl) eq_refl) as H1.
  match type of H1 with _ = Ret _ ?s => set (st1 := s) in * end.
  destruct (perform_all 7 true other_thread_reads st1) as [st2|] eqn:H2;
    [| exfalso; vm_compute in H2; discriminate H2].
  destruct (line_kept_until_next_read 7 true 0%nat other_thread_reads st1 st2 Hcs H2)
    as [Hbuf Hget].
  exists st1, st2. split; [exact H1 |]. split; [exact H2 |]. split.
  - rewrite Hbuf. apply lineBuffer_of_insert.
  - apply Hget.
    apply (SKIP_read_line_get_inside true 0%nat 0 st1 "h"%byte).
    unfold st1. rewrite lineBuffer_of_insert. reflexivity.
Defined.

(** X3. Once a [SKIP_read_line_fill] has thrown, on whatever thread, every
    later [SKIP_read_line_fill] on any thread throws the end-of-file value
    too, whatever is called in between: nothing in the file clears the
    stream's error state. *)
Theorem read_line_fill_keeps_raising eof sgn (t t' : tid) (cs : list (tid * call))
    (st st1 st2 : state) (e : ptr) :
  SKIP_read_line_fill eof t st = Throw e st1 ->
  perform_all eof sgn cs st1 = Some st2 ->
  exists st3, SKIP_read_line_fill eof t' st2 = Throw eof st3.
Proof.
  intros Hthrow Hrun.
  assert (Hfail1 : ios_fail (cin st1) = true).
  { rewrite SKIP_read_line_fill_unfold in Hthrow. cbv zeta in Hthrow.
    destruct (ios_fail (getline (cin st) (lineBuffer_of t st)).1) eqn:Hf;
      [| discriminate].
    injection Hthrow as _ <-. exact Hf. }
  assert (Hfail2 : ios_fail (cin st2) = true).
  { apply (perform_all_kept _ still_failed_kept eof sgn cs) with (st := st1);
      [| exact Hrun | exact Hfail1].
    apply Forall_forall. intros [t0 c0] _. apply perform_keeps_failed. }
  eexists. apply SKIP_read_line_fill_on_failed, Hfail2.
Qed.

(** On empty input the first read throws; after a save and a print on
    another thread, a read on that thread throws as well. *)
Lemma read_line_fill_keeps_raising_on_empty_input :
  exists st1 st2 st3,
    SKIP_read_line_fill 7 0%nat (boot []) = Throw 7 st1 /\
    perform_all 7 true other_thread_saves st1 = Some st2 /\
    SKIP_read_line_fill 7 1%nat st2 = Throw 7 st3.
Proof.
  destruct (SKIP_read_line_fill_cases 7 0%nat (boot [])) as (s & buf & [H1 | [n H1]]);
    [| exfalso; vm_compute in H1; discriminate H1].
  match type of H1 with _ = Throw _ ?s1 => set (st1 := s1) in * end.
  assert (H2 : exists st2, perform_all 7 true other_thread_saves st1 = Some st2)
    by (eexists; reflexivity).
  destruct H2 as [st2 H2].
  destruct (read_line_fill_keeps_raising 7 true 0%nat 1%nat other_thread_saves
              (boot []) st1 st2 7 H1 H2) as [st3 H3].
  exists st1, st2, st3. split; [exact H1 |]. split; [exact H2 | exact H3].
Defined.

(** At the end of the input a call on a good stream throws, and the stream
    has failed. *)
Lemma SKIP_read_line_fill_at_end eof t st :
  ios_good (cin st) = true -> pending (cin st) = [] ->
  exists st', SKIP_read_line_fill eof t st = Throw eof st' /\
              ios_fail (cin st') = true.
Proof.
  intros Hgood Hpending. rewrite SKIP_read_line_fill_unfold. unfold getline.
  rewrite Hgood, Hpending. simpl.
  destruct (ending (cin st)); simpl; eexists; split; reflexivity.
Qed.

(** X4. A reading loop over a text of [k] lines, each ended by a line feed,
    gets from its first [k] calls the [k] lines in order, each with its
    length as count (modulo 2^32), empty lines included; the call after the
    last line throws, which ends the loop with the stream failed. *)
Theorem read_lines_in_order eof (t : tid) (lines : list (list byte)) (n : nat)
    (st : state) :
  Forall (fun l => LF ∉ l) lines ->
  ios_good (cin st) = true ->
  pending (cin st) = text_of lines ->
  (length lines < n)%nat ->
  exists st',
    read_lines eof t n st
    = (map (fun l => (to_uint32 (Z.of_nat (length l)), l)) lines, Some st') /\
    ios_fail (cin st') = true.
Proof.
  intros Hlines. revert n st.
  induction Hlines as [| l ls Hl _ IH]; intros n st Hgood Hpending Hn;
    (destruct n as [| n]; [simpl in Hn; lia |]); simpl.
  - destruct (SKIP_read_line_fill_at_end eof t st Hgood Hpending) as (st' & -> & Hfail).
    exists st'. split; [reflexivity | exact Hfail].
  - assert (Hp : pending (cin st) = l ++ LF :: text_of ls).
    { rewrite Hpending. unfold text_of. simpl. rewrite <- app_assoc. reflexivity. }
    rewrite (SKIP_read_line_fill_terminated eof t st l (text_of ls) Hgood Hl Hp).
    rewrite lineBuffer_of_insert.
    destruct (IH n (set_cin (mk_istream (text_of ls) (ending (cin st)) false false false)
                      (set_lineBuffer (<[t := l]> (lineBuffer st)) st))
                eq_refl eq_refl ltac:(simpl in Hn; lia)) as (st' & -> & Hfail).
    exists st'. split; [reflexivity | exact Hfail].
Qed.

(** The text "ab", line feed, line feed, "c", line feed: the loop gets
    "ab" with count 2, the empty line with count 0 and "c" with count 1,
    and stops at the fourth call. *)
Lemma read_lines_in_order_three_lines :
  (Forall (fun l => LF ∉ l) three_lines /\
   ios_good (cin (boot (text_of three_lines))) = true /\
   pending (cin (boot (text_of three_lines))) = text_of three_lines /\
   (length three_lines < 5)%nat) /\
  exists st',
    read_lines 7 0%nat 5 (boot (text_of three_lines))
    = ([(2, bytes "ab"); (0, []); (1, bytes "c")], Some st') /\
    ios_fail (cin st') = true.
Proof.
  assert (Hlines : Forall (fun l => LF ∉ l) three_lines).
  { repeat (constructor; [apply not_elem_of_bytes; reflexivity |]). constructor. }
  assert (Hn : (length three_lines < 5)%nat) by (simpl; lia).
  split; [split; [exact Hlines | split; [reflexivity | split; [reflexivity | exact Hn]]] |].
  exact (read_lines_in_order 7 0%nat three_lines 5 (boot (text_of three_lines))
           Hlines eq_refl eq_refl Hn).
Defined.

(** X5. Only the line feed ends a line: when a line ends with carriage
    return and line feed, the carriage return is kept as the last byte of
    the buffer and is counted. *)
Theorem carriage_return_is_kept eof (t : tid) (st : state) (l rest : list byte) :
  ios_good (cin st) = true ->
  LF ∉ l ->
  pending (cin st) = l ++ CR :: LF :: rest ->
  exists st',
    SKIP_read_line_fill eof t st = Ret (to_uint32 (Z.of_nat (length l) + 1)) st' /\
    lineBuffer_of t st' = l ++ [CR] /\
    pending (cin st') = rest.
Proof.
  intros Hgood Hl Hpending.
  assert (Hnl : LF ∉ l ++ [CR]).
  { rewrite not_elem_of_app. split; [exact Hl |].
    apply not_elem_of_bytes. reflexivity. }
  assert (Hp : pending (cin st) = (l ++ [CR]) ++ LF :: rest).
  { rewrite Hpending, <- app_assoc. reflexivity. }
  eexists. split; [| split].
  - rewrite (SKIP_read_line_fill_terminated eof t st _ _ Hgood Hnl Hp).
    rewrite length_app. simpl. rewrite Nat2Z.inj_add. reflexivity.
  - apply lineBuffer_of_insert.
  - reflexivity.
Qed.

(** "ok", carriage return, line feed: the count is 3 and the buffer ends
    with the carriage return. *)
Lemma carriage_return_is_kept_ok :
  (ios_good (cin (boot (bytes "ok" ++ [CR; LF]))) = true /\ LF ∉ bytes "ok") /\
  exists st',
    SKIP_read_line_fill 7 0%nat (boot (bytes "ok" ++ [CR; LF])) = Ret 3 st' /\
    lineBuffer_of 0%nat st' = bytes "ok" ++ [CR] /\
    pending (cin st') = [].
Proof.
  assert (Hl : LF ∉ bytes "ok") by (apply not_elem_of_bytes; reflexivity).
  split; [split; [reflexivity | exact Hl] |].
  exact (carriage_return_is_kept 7 0%nat (boot (bytes "ok" ++ [CR; LF]))
           (bytes "ok") [] eq_refl Hl eq_refl).
Defined.

(** X6. Whatever the signedness of [char], the value [SKIP_read_line_get]
    returns for an index inside the buffer is a 32-bit value whose low
    eight bits are the byte at that index. *)
Theorem read_line_get_low_eight_bits sgn (t : tid) (i : Z) (st : state) (c : byte) :
  lineBuffer_of t st !! Z.to_nat i = Some c ->
  exists v,
    SKIP_read_line_get sgn t i st = Ret v st /\
    0 <= v < 2 ^ 32 /\
    v mod 256 = byte_val c.
Proof.
  intros Hc. exists (to_uint32 (char_val sgn c)).
  split; [apply SKIP_read_line_get_inside, Hc |].
  pose proof (byte_val_range c) as Hb.
  destruct sgn.
  - destruct (Z_lt_le_dec (byte_val c) 128) as [Hlow | Hhigh].
    + rewrite char_to_uint32_low by exact Hlow.
      split; [lia | apply Z.mod_small; lia].
    + rewrite char_to_uint32_signed_high by exact Hhigh. split; [lia |].
      replace (byte_val c + 4294967040) with (byte_val c + 16777215 * 256) by lia.
      rewrite Z.mod_add by discriminate. apply Z.mod_small. lia.
  - rewrite char_to_uint32_unsigned. split; [lia | apply Z.mod_small; lia].
Qed.

(** The byte 0xA9 where [char] is signed: the call returns 4294967209,
    whose low eight bits are 169. *)
Lemma read_line_get_low_eight_bits_a9 :
  exists st v,
    SKIP_read_line_fill 7 0%nat (boot [xa9; LF]) = Ret 1 st /\
    lineBuffer_of 0%nat st !! Z.to_nat 0 = Some xa9 /\
    SKIP_read_line_get true 0%nat 0 st = Ret v st /\
    0 <= v < 2 ^ 32 /\
    v mod 256 = 169.
Proof.
  pose proof (SKIP_read_line_fill_terminated 7 0%nat (boot [xa9; LF]) [xa9] []
                eq_refl (not_elem_of_bytes LF [xa9] eq_refl) eq_refl) as H1.
  match type of H1 with _ = Ret _ ?s => set (st := s) in * end.
  assert (Hc : lineBuffer_of 0%nat st !! Z.to_nat 0 = Some xa9).
  { unfold st. rewrite lineBuffer_of_insert. reflexivity. }
  destruct (read_line_get_low_eight_bits true 0%nat 0 st xa9 Hc) as (v & Hget & Hv & Hlow).
  exists st, v. split; [exact H1 |]. split; [exact Hc |].
  split; [exact Hget |]. split; [exact Hv | exact Hlow].
Defined.

(** X7. A line of fewer than 2^32 bytes, all below 128, is read back
    exactly on every target: [SKIP_read_line_fill] returns its length, then
    [SKIP_read_line_get] returns at every index below the length the value
    of the byte there, and at the index equal to the length the value 0 of
    the string's terminator. *)
Theorem seven_bit_line_read_back eof sgn (t : tid) (st : state)
    (line rest : list byte) :
  ios_good (cin st) = true ->
  LF ∉ line ->
  seven_bit line ->
  Z.of_nat (length line) < 2 ^ 32 ->
  pending (cin st) = line ++ LF :: rest ->
  exists st',
    SKIP_read_line_fill eof t st = Ret (Z.of_nat (length line)) st' /\
    (forall (i : nat) (c : byte),
       line !! i = Some c ->
       SKIP_read_line_get sgn t (Z.of_nat i) st' = Ret (byte_val c) st') /\
    SKIP_read_line_get sgn t (Z.of_nat (length line)) st' = Ret 0 st'.
Proof.
  intros Hgood Hnl H7 Hlen Hpending. eexists. split; [| split].
  - rewrite (SKIP_read_line_fill_terminated eof t st line rest Hgood Hnl Hpending).
    unfold to_uint32, uint32_max. rewrite Z.mod_small by lia. reflexivity.
  - intros i c Hc. apply read_line_get_plain_byte.
    + rewrite lineBuffer_of_insert, Nat2Z.id. exact Hc.
    + right. apply (proj1 (Forall_forall _ _) H7 c).
      apply (list_elem_of_lookup_2 _ _ _ Hc).
  - unfold SKIP_read_line_get, bind, get_state.
    rewrite lineBuffer_of_insert, Nat2Z.id.
    rewrite (proj2 (lookup_ge_None line (length line)) (Nat.le_refl _)).
    rewrite Z.eqb_refl. reflexivity.
Qed.

(** The line "hi": count 2, then 104 and 105 at the indices 0 and 1, and 0
    at index 2. *)
Lemma seven_bit_line_read_back_hi :
  (ios_good (cin (boot (bytes "hi" ++ [LF]))) = true /\
   (LF ∉ bytes "hi") /\ seven_bit (bytes "hi") /\
   Z.of_nat (length (bytes "hi")) < 2 ^ 32) /\
  exists st',
    SKIP_read_line_fill 7 0%nat (boot (bytes "hi" ++ [LF])) = Ret 2 st' /\
    SKIP_read_line_get true 0%nat 0 st' = Ret 104 st' /\
    SKIP_read_line_get true 0%nat 1 st' = Ret 105 st' /\
    SKIP_read_line_get true 0%nat 2 st' = Ret 0 st'.
Proof.
  assert (Hnl : LF ∉ bytes "hi") by (apply not_elem_of_bytes; reflexivity).
  assert (H7 : seven_bit (bytes "hi")).
  { repeat (constructor; [reflexivity |]). constructor. }
  assert (Hlen : Z.of_nat (length (bytes "hi")) < 2 ^ 32) by reflexivity.
  split; [split; [reflexivity | split; [exact Hnl | split; [exact H7 | exact Hlen]]] |].
  destruct (seven_bit_line_read_back 7 true 0%nat (boot (bytes "hi" ++ [LF]))
              (bytes "hi") [] eq_refl Hnl H7 Hlen eq_refl) as (st' & Hret & Hget & Hend).
  exists st'. split; [exact Hret |].
  split; [exact (Hget 0%nat "h"%byte eq_refl) |].
  split; [exact (Hget 1%nat "i"%byte eq_refl) | exact Hend].
Defined.

(** ** Output routines *)

(** A string and a line feed written to a stream with room for both. *)
Lemma put_line_accepted (str : list byte) (f : FILE) :
  accepts f (length str + 1) ->
  written (put [LF] (put str f)) = written f ++ str ++ [LF] /\
  ferror (put [LF] (put str f)) = ferror f.
Proof.
  intros Hroom.
  destruct (put_accepted [LF] (put str f)) as [Hw He].
  { apply accepts_put, Hroom. }
  destruct (put_accepted str f) as [Hw' He'].
  { unfold accepts in *. destruct (room f); [lia | exact I]. }
  rewrite Hw, Hw', He, He', <- app_assoc. split; reflexivity.
Qed.

(** X8. [SKIP_print_error], for a string without zero byte, appends the
    string and one line feed to standard error; standard output is not
    touched, the stream's error indicator is as it was, and the heap is as
    before the call. *)
Theorem print_error_writes_line_to_stderr (str : skstring) (st : state) :
  NUL ∉ str ->
  Z.of_nat (length str) < 2 ^ 32 ->
  can_malloc (SKIP_String_byteSize str + 1) st ->
  accepts (stderr st) (length str + 1) ->
  exists st',
    SKIP_print_error str st = Ret tt st' /\
    written (stderr st') = written (stderr st) ++ str ++ [LF] /\
    ferror (stderr st') = ferror (stderr st) /\
    stdout st' = stdout st /\
    heap_restored st st'.
Proof.
  intros Hnz Hlen Hmem Hroom. eexists.
  split; [apply (SKIP_print_error_returns str st Hmem) |].
  rewrite (c_str_of_NUL_free str Hnz Hlen). simpl.
  destruct (put_line_accepted str (stderr st) Hroom) as [Hw He].
  split; [exact Hw |]. split; [exact He |]. split; [reflexivity |].
  split; reflexivity.
Qed.

(** "oops" printed as an error by a fresh process: standard error holds
    "oops" and a line feed, standard output is empty. *)
Lemma print_error_writes_line_to_stderr_oops :
  ((NUL ∉ bytes "oops") /\ Z.of_nat (length (bytes "oops")) < 2 ^ 32 /\
   can_malloc (SKIP_String_byteSize (bytes "oops") + 1) (boot []) /\
   accepts (stderr (boot [])) (length (bytes "oops") + 1)) /\
  exists st',
    SKIP_print_error (bytes "oops") (boot []) = Ret tt st' /\
    written (stderr st') = bytes "oops" ++ [LF] /\
    written (stdout st') = [].
Proof.
  assert (Hnz : NUL ∉ bytes "oops") by (apply not_elem_of_bytes; reflexivity).
  assert (Hlen : Z.of_nat (length (bytes "oops")) < 2 ^ 32) by reflexivity.
  split; [split; [exact Hnz | split; [exact Hlen | split; exact I]] |].
  destruct (print_error_writes_line_to_stderr (bytes "oops") (boot []) Hnz Hlen I I)
    as (st' & Hret & Hw & _ & Hout & _).
  exists st'. split; [exact Hret |]. split; [exact Hw |].
  rewrite Hout. reflexivity.
Defined.



(** X10. What has been written stays written: after any sequence of calls
    that the process survives, each of the two output streams holds what
    it held before, followed by what the calls appended. *)
Theorem output_is_only_appended eof sgn (cs : list (tid * call)) (st st' : state) :
  perform_all eof sgn cs st = Some st' ->
  written (stdout st) `prefix_of` written (stdout st') /\
  written (stderr st) `prefix_of` written (stderr st').
Proof.
  intros Hrun.
  apply (perform_all_kept _ output_extended_kept eof sgn cs); [| exact Hrun].
  apply Forall_forall. intros [t c] _. apply perform_extends_output.
Qed.

(** A process that has written "ab" makes the mixed calls: it survives
    them and "ab" is still the start of its standard output. *)
Lemma output_is_only_appended_after_ab :
  exists st',
    perform_all 7 true mixed_calls wrote_ab = Some st' /\
    bytes "ab" `prefix_of` written (stdout st') /\
    [] `prefix_of` written (stderr st').
Proof.
  destruct (perform_all 7 true mixed_calls wrote_ab) as [st'|] eqn:Hrun;
    [| exfalso; vm_compute in Hrun; discriminate Hrun].
  exists st'. split; [reflexivity |].
  exact (output_is_only_appended 7 true mixed_calls wrote_ab st' Hrun).
Defined.

(** X11. [print] is the only routine of the file that calls [malloc], and
    it frees its buffer before it returns: after any sequence of calls
    without [free_size] that the process survives, the blocks that the
    file's own [malloc] calls have handed out and that are not freed are
    the same as before.  (The storage the libraries manage for themselves,
    such as the characters of [lineBuffer], is not counted.) *)
Theorem heap_is_restored_by_every_call eof sgn (cs : list (tid * call))
    (st st' : state) :
  Forall (fun tc => ~ frees tc) cs ->
  perform_all eof sgn cs st = Some st' ->
  heap st' = heap st.
Proof.
  intros Hcs Hrun.
  apply (perform_all_kept _ same_blocks_kept eof sgn cs); [| exact Hrun].
  eapply Forall_impl; [exact Hcs |].
  intros [t c] Hnf. apply perform_keeps_blocks, Hnf.
Qed.

(** A process prints on both streams, reads and saves: it survives, and no
    block of the file's is live afterwards. *)
Lemma heap_is_restored_by_every_call_cramped :
  Forall (fun tc => ~ frees tc) calls_without_free /\
  exists st',
    perform_all 7 true calls_without_free cramped = Some st' /\
    heap st' = ∅.
Proof.
  assert (Hcs : Forall (fun tc => ~ frees tc) calls_without_free).
  { repeat (constructor; [intros (p & size & He); discriminate He |]). constructor. }
  split; [exact Hcs |].
  destruct (perform_all 7 true calls_without_free cramped) as [st'|] eqn:Hrun;
    [| exfalso; vm_compute in Hrun; discriminate Hrun].
  exists st'. split; [reflexivity |].
  exact (heap_is_restored_by_every_call 7 true calls_without_free cramped st'
           Hcs Hrun).
Defined.

(** X12. The output routines do not look at what [malloc] returns: when the
    heap cannot supply the string's byte size plus one, [print], and with
    it [SKIP_print_raw], [print_string] and [SKIP_print_error], run into
    undefined behaviour instead of returning or throwing. *)
Theorem print_without_memory_is_undefined (str : skstring) (st : state) :
  ~ can_malloc (SKIP_String_byteSize str + 1) st ->
  (forall d, print d str st = Fault) /\
  SKIP_print_raw str st = Fault /\
  print_string str st = Fault /\
  SKIP_print_error str st = Fault.
Proof.
  intros Hmem.
  assert (Hprint : forall d, print d str st = Fault)
    by (intros d; apply print_dies, Hmem).
  split; [exact Hprint |]. split; [apply Hprint |].
  unfold print_string, SKIP_print_error, bind. rewrite !Hprint. split; reflexivity.
Qed.

(** "hello" with three bytes of heap left: six are needed. *)
Lemma print_without_memory_is_undefined_starved :
  ~ can_malloc (SKIP_String_byteSize (bytes "hello") + 1) starved /\
  SKIP_print_raw (bytes "hello") starved = Fault /\
  print_string (bytes "hello") starved = Fault /\
  SKIP_print_error (bytes "hello") starved = Fault.
Proof.
  assert (Hmem : ~ can_malloc (SKIP_String_byteSize (bytes "hello") + 1) starved).
  { intros H. vm_compute in H. apply H. reflexivity. }
  split; [exact Hmem |].
  exact (proj2 (print_without_memory_is_undefined (bytes "hello") starved Hmem)).
Defined.

(** ** Argument accessor *)

(** [SKIP_getArgN] at an index whose successor names entry [a] of the
    vector. *)
Lemma SKIP_getArgN_served (args : list (list byte)) (n : Z) (a : list byte) st :
  argv st = Some args ->
  host_args args ->
  0 <= n ->
  args !! (Z.to_nat n + 1)%nat = Some a ->
  SKIP_getArgN n st = Ret a st.
Proof.
  intros Hargv [Hint Hstrs] Hn Ha.
  pose proof (lookup_lt_Some _ _ _ Ha) as Hlt.
  pose proof (proj1 (Forall_forall _ _) Hstrs a (list_elem_of_lookup_2 _ _ _ Ha))
    as [Hnz Hshort].
  rewrite (SKIP_getArgN_entry n st args a Hargv).
  - rewrite (strlen_c_mem a Hnz). unfold to_uint32, uint32_max.
    rewrite Z.mod_small by lia. rewrite sk_string_create_c_mem. reflexivity.
  - unfold to_uint32, uint32_max. rewrite Z.mod_small by lia.
    replace (Z.to_nat (n + 1)) with (Z.to_nat n + 1)%nat by lia. exact Ha.
Qed.

(** X13. A process started with an empty argument vector: [SKIP_getArgc]
    does not return 0 or a negative count but 4294967295, and
    [SKIP_getArgN] is undefined at every index. *)
Theorem no_argument_at_all (st : state) :
  captured 0 [] st ->
  SKIP_getArgc st = Ret 4294967295 st /\
  forall n, SKIP_getArgN n st = Fault.
Proof.
  intros [Hargc Hargv]. split.
  - rewrite SKIP_getArgc_spec, Hargc. reflexivity.
  - intros n. unfold SKIP_getArgN, bind, get_state. rewrite Hargv. reflexivity.
Qed.

Lemma no_argument_at_all_started :
  captured 0 [] started_without_arguments /\
  SKIP_getArgc started_without_arguments = Ret 4294967295 started_without_arguments /\
  SKIP_getArgN 0 started_without_arguments = Fault.
Proof.
  assert (Hcap : captured 0 [] started_without_arguments) by (split; reflexivity).
  split; [exact Hcap |].
  destruct (no_argument_at_all started_without_arguments Hcap) as [Hc Hn].
  split; [exact Hc | exact (Hn 0)].
Defined.

(** X14. The index is incremented as a [uint32_t]: [SKIP_getArgN] at index
    4294967295 wraps to entry 0 of the vector and returns the program's
    own path, the entry the count leaves out. *)
Theorem last_index_wraps_to_program_path (args : list (list byte)) (a : list byte)
    (st : state) :
  argv st = Some args ->
  host_args args ->
  args !! 0%nat = Some a ->
  SKIP_getArgN 4294967295 st = Ret a st.
Proof.
  intros Hargv [Hint Hstrs] Ha.
  pose proof (proj1 (Forall_forall _ _) Hstrs a (list_elem_of_lookup_2 _ _ _ Ha))
    as [Hnz Hshort].
  rewrite (SKIP_getArgN_entry 4294967295 st args a Hargv Ha).
  rewrite (strlen_c_mem a Hnz). unfold to_uint32, uint32_max.
  rewrite Z.mod_small by lia. rewrite sk_string_create_c_mem. reflexivity.
Qed.

Lemma last_index_wraps_to_program_path_prog :
  (argv started_prog_flag_value = Some prog_flag_value /\
   host_args prog_flag_value /\
   prog_flag_value !! 0%nat = Some (bytes "prog")) /\
  SKIP_getArgN 4294967295 started_prog_flag_value
  = Ret (bytes "prog") started_prog_flag_value.
Proof.
  assert (Hhost : host_args prog_flag_value).
  { split; [reflexivity |].
    repeat (constructor; [split; [apply not_elem_of_bytes; reflexivity | reflexivity] |]).
    constructor. }
  split; [split; [reflexivity | split; [exact Hhost | reflexivity]] |].
  exact (last_index_wraps_to_program_path prog_flag_value (bytes "prog")
           started_prog_flag_value eq_refl Hhost eq_refl).
Defined.

(** X15. [SKIP_getArgN] checks no bound: at an index from the count up
    (short of the one that wraps) it reads [argv] at or past its null
    end, which is undefined. *)
Theorem argument_index_out_of_range (args : list (list byte)) (n : Z) (st : state) :
  argv st = Some args ->
  Z.of_nat (length args) - 1 <= n ->
  0 <= n < 4294967295 ->
  SKIP_getArgN n st = Fault.
Proof.
  intros Hargv Hlo Hn. unfold SKIP_getArgN, bind, get_state. rewrite Hargv.
  unfold to_uint32, uint32_max. rewrite Z.mod_small by lia.
  rewrite (proj2 (lookup_ge_None args (Z.to_nat (n + 1)))) by lia.
  reflexivity.
Qed.

Lemma argument_index_out_of_range_prog :
  (argv started_prog_flag_value = Some prog_flag_value /\
   Z.of_nat (length prog_flag_value) - 1 <= 2 /\ 0 <= 2 < 4294967295) /\
  SKIP_getArgN 2 started_prog_flag_value = Fault.
Proof.
  assert (Hlo : Z.of_nat (length prog_flag_value) - 1 <= 2) by (simpl; lia).
  assert (Hn : 0 <= 2 < 4294967295) by lia.
  split; [split; [reflexivity | split; [exact Hlo | exact Hn]] |].
  exact (argument_index_out_of_range prog_flag_value 2 started_prog_flag_value
           eq_refl Hlo Hn).
Defined.

(** ** Process bootstrap *)

(** Every call made during [main] finds the arguments captured. *)
Lemma main_trace_captured eof sgn pargc pargv init entry st :
  Forall (fun tcs => captured pargc pargv tcs.2)
         (main eof sgn pargc pargv init entry st).1.
Proof.
  unfold main.
  change (set_args (argc (set_args pargc (argv st) st)) (Some pargv)
            (set_args pargc (argv st) st))
    with (set_args pargc (Some pargv) st).
  assert (Hb : captured pargc pargv (set_args pargc (Some pargv) st))
    by (split; reflexivity).
  destruct (run_keeps_args eof sgn pargc pargv init _ Hb) as [Htr1 Hr1].
  destruct (run eof sgn init (set_args pargc (Some pargv) st)) as [tr1 r1].
  simpl in *. destruct r1 as [st1 | e st1 |]; simpl; try exact Htr1.
  destruct (run_keeps_args eof sgn pargc pargv entry st1 Hr1) as [Htr2 _].
  destruct (run eof sgn entry st1) as [tr2 r2]. simpl in *.
  apply Forall_app. split; assumption.
Qed.

(** X16. Throughout a run started with at least one argument, whatever the
    initialization and the entry point do and on whatever thread, each of
    their calls of [SKIP_getArgc] returns the number of arguments minus 1
    and each call of [SKIP_getArgN] at an index below that count returns
    the entry after the one at that index. *)
Theorem arguments_served_during_run eof sgn (args : list (list byte))
    (SKIP_initializeSkip skip_main : compiled) (st : state) :
  (1 <= length args)%nat ->
  host_args args ->
  Forall (fun tcs =>
            match tcs with
            | (t, Call_getArgc, s) =>
                perform eof sgn t Call_getArgc s
                = Ret (VInt (Z.of_nat (length args) - 1)) s
            | (t, Call_getArgN n, s) =>
                forall a,
                  0 <= n -> args !! (Z.to_nat n + 1)%nat = Some a ->
                  perform eof sgn t (Call_getArgN n) s = Ret (VString a) s
            | _ => True
            end)
         (start eof sgn args SKIP_initializeSkip skip_main st).1.
Proof.
  intros Hlen Hhost. unfold start.
  eapply Forall_impl; [apply main_trace_captured |].
  intros [[t c] s] [Hargc Hargv]. simpl in Hargc, Hargv.
  destruct c; try exact I.
  - simpl. unfold lift, bind, ret. rewrite SKIP_getArgc_spec, Hargc.
    destruct Hhost as [Hint _]. unfold to_uint32, uint32_max.
    rewrite Z.mod_small by lia. reflexivity.
  - intros a Hn Ha. simpl. unfold lift, bind, ret.
    rewrite (SKIP_getArgN_served args n a s Hargv Hhost Hn Ha). reflexivity.
Qed.

(** Started with "prog", "--flag", "value", an entry point asks for the
    count and for argument 1: both calls are in the trace and are served. *)
Lemma arguments_served_during_run_prog :
  ((1 <= length prog_flag_value)%nat /\ host_args prog_flag_value) /\
  length (start 7 true prog_flag_value Return ask_count_and_second (boot [])).1 = 2%nat /\
  Forall (fun tcs =>
            match tcs with
            | (t, Call_getArgc, s) =>
                perform 7 true t Call_getArgc s = Ret (VInt 2) s
            | (t, Call_getArgN n, s) =>
                forall a,
                  0 <= n -> prog_flag_value !! (Z.to_nat n + 1)%nat = Some a ->
                  perform 7 true t (Call_getArgN n) s = Ret (VString a) s
            | _ => True
            end)
         (start 7 true prog_flag_value Return ask_count_and_second (boot [])).1.
Proof.
  assert (Hlen : (1 <= length prog_flag_value)%nat) by (simpl; lia).
  assert (Hhost : host_args prog_flag_value).
  { split; [reflexivity |].
    repeat (constructor; [split; [apply not_elem_of_bytes; reflexivity | reflexivity] |]).
    constructor. }
  split; [split; [exact Hlen | exact Hhost] |]. split; [reflexivity |].
  exact (arguments_served_during_run 7 true prog_flag_value Return
           ask_count_and_second (boot []) Hlen Hhost).
Defined.
